(** * NDK build orchestrator and test builder: a shallow embedding

    The development follows the Python sources:
    - [ndk/test/builder.py]: [_fixup_expected_failure],
      [_fixup_negative_test], [_run_test], [_desired_api_level];
    - [ndk/test/spec.py]: [BuildConfiguration];
    - [ndk/checkbuild.py]: [_get_transitive_module_deps],
      [get_transitive_module_deps], [get_modules_to_build],
      [launch_buildable], [wait_for_build].

    Python sets and dicts are stdpp's [gset] and [gmap]; Python integers
    are [Z]; Python strings are [string].  Code that can raise returns an
    [outcome]; code whose calls matter is run in a small logging monad. *)

From Stdlib Require Import ZArith Ascii String DecimalString DecimalPos DecimalZ.
From stdpp Require Import base option list relations strings gmap sorting.

Set Warnings "-clear-no-such-hyp".

Local Open Scope string_scope.
Local Open Scope list_scope.
Local Open Scope Z_scope.

(** ** Python exceptions *)

Module Py.

(** The exceptions the embedded code raises or meets.  [OtherException]
    stands for any further subclass of [Exception] raised by a
    collaborator (a test's build action, a predicate file). *)
Inductive PyExc : Type :=
  | KeyError (key : string)
  | ValueError (msg : string)
  | RuntimeError (msg : string)
  | AssertionError
  | OtherException (descr : string)
  | KeyboardInterrupt
  | SystemExit (code : Z) (msg : string).

#[export] Instance PyExc_eq_dec : EqDecision PyExc.
Proof. solve_decision. Defined.

(** [isinstance(e, Exception)]: [KeyboardInterrupt] and [SystemExit]
    derive from [BaseException] only, so [except Exception] lets them
    through. *)
Definition is_Exception (e : PyExc) : bool :=
  match e with
  | KeyboardInterrupt | SystemExit _ _ => false
  | _ => true
  end.

(** [sys.exit(arg)]: an integer is the exit status; a string is printed
    to stderr and the status is 1. *)
Definition sys_exit_code (code : Z) : PyExc := SystemExit code "".
Definition sys_exit_msg (msg : string) : PyExc := SystemExit 1 msg.

(** How a call ends: it returns, it raises, or it does not return at
    all (a collaborator that hangs; in a fuel-bounded loop, no fuel is
    left). *)
Inductive outcome (A : Type) : Type :=
  | Returned (a : A)
  | Raised (e : PyExc)
  | Diverged.
Arguments Returned {A} a.
Arguments Raised {A} e.
Arguments Diverged {A}.

#[export] Instance outcome_eq_dec {A} `{EqDecision A} : EqDecision (outcome A).
Proof. solve_decision. Defined.

#[export] Instance outcome_ret : MRet outcome := @Returned.
#[export] Instance outcome_bind : MBind outcome := λ A B f m,
  match m with
  | Returned a => f a
  | Raised e => Raised e
  | Diverged => Diverged
  end.

(** [for x in xs: st = body(st, x)], stopping at the first call that
    does not return. *)
Fixpoint for_each {S A : Type} (body : S → A → outcome S) (st : S)
    (xs : list A) : outcome S :=
  match xs with
  | [] => Returned st
  | x :: xs => st' ← body st x; for_each body st' xs
  end.

(** The order in which Python iterates over a set is not specified: it
    is some enumeration of the elements without repetition. *)
Class SetOrder := {
  set_iter : ∀ {A : Type} `{Countable A}, gset A → list A;
  set_iter_perm : ∀ {A : Type} `{Countable A} (s : gset A),
    set_iter s ≡ₚ elements s;
}.

(** [str(n)] and [int(s)] for Python integers.  [int] is modelled on
    the plain form, an optional sign followed by ASCII digits; the other
    spellings Python accepts (surrounding blanks, underscores) are not
    produced by [str] and are rejected here. *)
Definition str_int (n : Z) : string := NilZero.string_of_int (Z.to_int n).

Definition int_str (s : string) : outcome Z :=
  let digits :=
    match s with
    | String "+" (String c s') =>
        if Ascii.eqb c "-" then "-" else String c s'
    | _ => s
    end in
  match NilZero.int_of_string digits with
  | Some d => Returned (Z.of_int d)
  | None =>
      Raised (ValueError ("invalid literal for int() with base 10: " +:+ s))
  end.

(** [s.partition(sep)] for a one-character separator: the part before
    the first separator, the separator, the part after it; when [s] has
    no separator, [s] and two empty strings. *)
Fixpoint partition (sep : ascii) (s : string) : string * string * string :=
  match s with
  | EmptyString => ("", "", "")
  | String c s' =>
      if Ascii.eqb c sep then ("", String sep "", s')
      else let '(before, found, after) := partition sep s' in
           (String c before, found, after)
  end.

(** [s.split(sep)] for a one-character separator. *)
Fixpoint split (sep : ascii) (s : string) : list string :=
  match s with
  | EmptyString => [""]
  | String c s' =>
      if Ascii.eqb c sep then "" :: split sep s'
      else match split sep s' with
           | part :: parts => String c part :: parts
           | [] => [String c ""]
           end
  end.

(** [s.startswith(prefix)]. *)
Definition startswith (s prefix : string) : bool := String.prefix prefix s.

(** [d[key]] on a dict. *)
Definition dict_getitem {V} (d : gmap string V) (key : string) : outcome V :=
  match d !! key with
  | Some v => Returned v
  | None => Raised (KeyError key)
  end.

End Py.
Export Py.

(** ** Test results and the test runner ([ndk/test/builder.py]) *)

Module Builder.

(** Modelled from the spec: the result classes of [ndk.test.result] are
    not among the sources.  A test result is a tagged variant over
    Success, Failure, Skipped, ExpectedFailure and UnexpectedSuccess,
    each carrying its test; the arguments are those [builder.py] passes
    to the constructors.  The five classes are siblings, so
    [isinstance] is a match on the constructor. *)
Inductive TestResult (Test : Type) : Type :=
  | Success (test : Test)
  | Failure (test : Test) (message : string)
  | Skipped (test : Test) (message : string)
  | ExpectedFailure (test : Test) (message : string) (config bug : string)
  | UnexpectedSuccess (test : Test) (config bug : string).
Arguments Success {Test} test.
Arguments Failure {Test} test message.
Arguments Skipped {Test} test message.
Arguments ExpectedFailure {Test} test message config bug.
Arguments UnexpectedSuccess {Test} test config bug.

Definition _fixup_expected_failure {Test} (result : TestResult Test)
    (config bug : string) : TestResult Test :=
  match result with
  | Failure test message => ExpectedFailure test message config bug
  | Success test => UnexpectedSuccess test config bug
  | _ => result
  end.

Definition _fixup_negative_test {Test} (result : TestResult Test)
    : TestResult Test :=
  match result with
  | Failure test _ => Success test
  | Success test => Failure test "negative test case succeeded"
  | _ => result
  end.

(** The interface of [ndk.test.buildtest.case.Test] that [_run_test]
    calls; the class is not among the sources and its methods are taken
    as parameters.  Each call returns, raises, or does not return. *)
Class TestClass (Test Path TestFilter : Type) := {
  test_str : Test → string;
  check_unsupported : Test → outcome (option string);
  run : Test → Path → Path → TestFilter
        → outcome (TestResult Test * list Test);
  is_negative_test : Test → outcome bool;
  check_broken : Test → outcome (option string * option string);
}.

(** What [_run_test] does to its surroundings, in order. *)
Inductive effect (Test : Type) : Type :=
  | SetStatus (status : string)
  | CallCheckUnsupported (test : Test)
  | CallRun (test : Test)
  | CallIsNegativeTest (test : Test)
  | CallCheckBroken (test : Test).
Arguments SetStatus {Test} status.
Arguments CallCheckUnsupported {Test} test.
Arguments CallRun {Test} test.
Arguments CallIsNegativeTest {Test} test.
Arguments CallCheckBroken {Test} test.

(** A computation: the effects performed, then how it ended. *)
Definition M (Test A : Type) : Type := list (effect Test) * outcome A.

Definition ret {Test A} (a : A) : M Test A := ([], Returned a).
Definition raise {Test A} (e : PyExc) : M Test A := ([], Raised e).
Definition bind {Test A B} (m : M Test A) (f : A → M Test B) : M Test B :=
  match m with
  | (log, Returned a) => let '(log', r) := f a in (log ++ log', r)
  | (log, Raised e) => (log, Raised e)
  | (log, Diverged) => (log, Diverged)
  end.
Definition perform {Test} (ev : effect Test) : M Test () := ([ev], Returned ()).
Definition call {Test A} (ev : effect Test) (o : outcome A) : M Test A :=
  ([ev], o).

(** [try: body  except Exception: handler]. *)
Definition try_except_Exception {Test A} (body : M Test A)
    (handler : PyExc → M Test A) : M Test A :=
  match body with
  | (log, Raised e) =>
      if is_Exception e
      then let '(log', r) := handler e in (log ++ log', r)
      else (log, Raised e)
  | _ => body
  end.

#[export] Instance M_ret {Test} : MRet (M Test) := λ A, ret.
#[export] Instance M_bind {Test} : MBind (M Test) := λ A B f m, bind m f.

Definition RunTestResult (Test : Type) : Type :=
  string * TestResult Test * list Test.

Section RunTest.
Context {Test Path TestFilter : Type} `{!TestClass Test Path TestFilter}.
(** [traceback.format_exc()] inside the handler, as a function of the
    exception being handled. *)
Variable format_exc : PyExc → string.

Definition _run_test (suite : string) (test : Test) (obj_dir dist_dir : Path)
    (test_filters : TestFilter) : M Test (RunTestResult Test) :=
  perform (SetStatus ("Building " +:+ test_str test)) ;;
  config ← call (CallCheckUnsupported test) (check_unsupported test);
  match config with
  | Some config =>
      let message := "test unsupported for " +:+ config in
      ret (suite, Skipped test message, [])
  | None =>
      '(result, additional_tests) ←
        try_except_Exception
          ('(result, additional_tests) ←
             call (CallRun test) (run test obj_dir dist_dir test_filters);
           negative ← call (CallIsNegativeTest test) (is_negative_test test);
           let result :=
             if negative : bool then _fixup_negative_test result else result in
           '(config, bug) ← call (CallCheckBroken test) (check_broken test);
           match config with
           | Some config =>
               match bug with
               | None => raise AssertionError
               | Some bug =>
                   ret (_fixup_expected_failure result config bug,
                        additional_tests)
               end
           | None => ret (result, additional_tests)
           end)
          (λ e, ret (Failure test (format_exc e), []));
      ret (suite, result, additional_tests)
  end.
End RunTest.

End Builder.

(** ** Build configurations ([ndk/test/spec.py]) *)

Module Spec.

Inductive CMakeToolchainFile : Type := Legacy | Default.

Definition value (t : CMakeToolchainFile) : string :=
  match t with
  | Legacy => "legacy"
  | Default => "new"
  end.

(** [CMakeToolchainFile(s)]: the member with that value. *)
Definition CMakeToolchainFile_of_value (s : string)
    : outcome CMakeToolchainFile :=
  if String.eqb s "legacy" then Returned Legacy
  else if String.eqb s "new" then Returned Default
  else Raised (ValueError (s +:+ " is not a valid CMakeToolchainFile")).

(** [Abi] is a [NewType] of [str]. *)
Record BuildConfiguration : Type := {
  abi : string;
  api : option Z;
  toolchain_file : CMakeToolchainFile;
}.

(** [str(self.api)] for an [Optional[int]]. *)
Definition str_api (a : option Z) : string :=
  match a with
  | Some n => str_int n
  | None => "None"
  end.

(** [BuildConfiguration.__str__]. *)
Definition __str__ (self : BuildConfiguration) : string :=
  String.concat "-" [abi self; str_api (api self); value (toolchain_file self)].

(** [api_str, toolchain_file_str = rest.split("-")]. *)
Definition unpack2 (parts : list string) : outcome (string * string) :=
  match parts with
  | [a; b] => Returned (a, b)
  | [] | [_] =>
      Raised (ValueError "not enough values to unpack (expected 2)")
  | _ => Raised (ValueError "too many values to unpack (expected 2)")
  end.

Definition from_string (config_string : string) : outcome BuildConfiguration :=
  let '(abi_, _, rest) := partition "-" config_string in
  let '(abi_, rest) :=
    if String.eqb abi_ "armeabi" && startswith rest "v7a-"
    then (abi_ +:+ "-v7a", (partition "-" rest).2)
    else if String.eqb abi_ "arm64" && startswith rest "v8a-"
    then (abi_ +:+ "-v8a", (partition "-" rest).2)
    else (abi_, rest) in
  '(api_str, toolchain_file_str) ← unpack2 (split "-" rest);
  api_ ← int_str api_str;
  toolchain_file_ ← CMakeToolchainFile_of_value toolchain_file_str;
  Returned {| abi := abi_; api := Some api_; toolchain_file := toolchain_file_ |}.

(** [c in s] for a character. *)
Fixpoint contains (c : ascii) (s : string) : bool :=
  match s with
  | EmptyString => false
  | String c' s' => Ascii.eqb c' c || contains c s'
  end.

Definition is_digit (c : ascii) : bool :=
  (48 <=? nat_of_ascii c)%nat && (nat_of_ascii c <=? 57)%nat.

(** Modelled from the spec: the table [ndk.abis.ALL_ABIS] is not among
    the sources.  An NDK ABI name is one of the two names with a dash
    that [from_string] knows, or a name without a dash ([x86],
    [x86_64], ...). *)
Definition ndk_abi_name (a : string) : bool :=
  String.eqb a "armeabi-v7a" || String.eqb a "arm64-v8a"
  || negb (contains "-" a).

(** The devices of API level [api_] support [abi_] and [api_] is at
    least [min_api]. *)
Definition device_supports (min_api : Z) (abi_ : string)
    (devices : gmap Z (list string)) (api_ : Z) : Prop :=
  min_api ≤ api_ ∧ ∃ abis, devices !! api_ = Some abis ∧ abi_ ∈ abis.

(** [_desired_api_level] of [ndk/test/builder.py]. *)
Fixpoint _desired_api_level_loop (min_api : Z) (abi_ : string)
    (devices : gmap Z (list string)) (apis : list Z) : outcome Z :=
  match apis with
  | [] =>
      Raised (RuntimeError ("Desired API level >= " +:+ str_int min_api
                            +:+ " not found for " +:+ abi_))
  | api_ :: apis =>
      if bool_decide (api_ < min_api)
      then _desired_api_level_loop min_api abi_ devices apis
      else
        match devices !! api_ with
        | None => Raised (KeyError (str_int api_))
        | Some abis =>
            if bool_decide (abi_ ∈ abis) then Returned api_
            else _desired_api_level_loop min_api abi_ devices apis
        end
  end.

Definition _desired_api_level (min_api : Z) (abi_ : string)
    (devices : gmap Z (list string)) : outcome Z :=
  _desired_api_level_loop min_api abi_ devices
    (merge_sort Z.le (elements (dom devices))).

End Spec.

(** ** Build modules ([ndk.builds]) *)

Module Builds.

(** Modelled from the spec: the class [ndk.builds.Module] is not among
    the sources.  The orchestrator reads its attributes [name] and
    [deps] (a set of names); [str(module)] is the name.  Module objects
    are compared by value here; the registry holds one object per
    name. *)
Record BuildModule : Type := { name : string; deps : gset string }.

#[export] Instance BuildModule_eq_dec : EqDecision BuildModule.
Proof. solve_decision. Defined.

#[export] Instance BuildModule_countable : Countable BuildModule.
Proof.
  apply (inj_countable' (λ m, (name m, deps m))
           (λ p, {| name := p.1; deps := p.2 |})).
  by intros [].
Defined.

End Builds.

(** ** The dependency manager and the work queue *)

Module Deps.
Import Builds.

(** Modelled from the spec: the class [ndk.deps.DependencyManager],
    which is not among the sources.  Its state is the three sets of the
    data model: [pending] modules have not been handed out, [in_flight]
    modules have been handed out by [get_buildable] and are awaiting
    completion, [completed] modules are done. *)
Record DependencyManager : Type := {
  pending : gset BuildModule;
  in_flight : gset BuildModule;
  completed : gset BuildModule;
}.

#[export] Instance DependencyManager_eq_dec : EqDecision DependencyManager.
Proof. solve_decision. Defined.

(** Modelled from the spec: the constructor [DependencyManager(modules)]
    over the chosen module subset; every module starts pending. *)
Definition new (all_modules : list BuildModule) : DependencyManager :=
  {| pending := list_to_set all_modules; in_flight := ∅; completed := ∅ |}.

(** Modelled from the spec: the attribute [buildable_modules], the
    pending modules whose entire dependency set is included in the
    completed modules. *)
Definition buildable_modules (dm : DependencyManager) : gset BuildModule :=
  filter (λ m, deps m ⊆ set_map name (completed dm)) (pending dm).

(** Modelled from the spec: [get_buildable()] hands out the buildable
    modules, which become in flight (a module is dispatched at most
    once). *)
Definition get_buildable (dm : DependencyManager)
    : gset BuildModule * DependencyManager :=
  let buildable := buildable_modules dm in
  (buildable,
   {| pending := pending dm ∖ buildable;
      in_flight := in_flight dm ∪ buildable;
      completed := completed dm |}).

(** Modelled from the spec: [complete(module)] moves a module from in
    flight to completed. *)
Definition complete (module : BuildModule) (dm : DependencyManager)
    : DependencyManager :=
  {| pending := pending dm;
     in_flight := in_flight dm ∖ {[module]};
     completed := completed dm ∪ {[module]} |}.

End Deps.

Module Workqueue.
Import Builds.

(** Modelled from the spec: [ndk.workqueue.WorkQueue] is not among the
    sources.  A work queue is the list of the tasks enqueued and not yet
    retrieved; a task of the module build is [launch_build] applied to a
    module, with its result once a worker has run it. *)
Record task : Type := { task_module : BuildModule; task_result : option bool }.

#[export] Instance task_eq_dec : EqDecision task.
Proof. solve_decision. Defined.

(** Modelled from the spec: [add_task(fn, *args)] enqueues work. *)
Definition add_task (module : BuildModule) (q : list task) : list task :=
  q ++ [{| task_module := module; task_result := None |}].

(** Modelled from the spec: [finished()] reports whether all enqueued
    work has been retrieved. *)
Definition finished (q : list task) : bool := bool_decide (q = []).

(** Modelled from the spec: [get_result()] returns the outcome of one
    completed task, here the task at position [i] when it has
    completed, and removes it from the queue. *)
Definition get_result (i : nat) (q : list task)
    : option (bool * BuildModule * list task) :=
  match q !! i with
  | Some {| task_module := module; task_result := Some result |} =>
      Some (result, module, delete i q)
  | _ => None
  end.

End Workqueue.

(** ** Module selection and the build loop ([ndk/checkbuild.py]) *)

Module Checkbuild.
Import Builds Deps Workqueue.

(** The three sets [_get_transitive_module_deps] mutates. *)
Record closure : Type := {
  c_deps : gset BuildModule;
  c_unknown_deps : gset string;
  c_seen : gset BuildModule;
}.

(** The three sets of the loop of [get_modules_to_build]. *)
Record selection : Type := {
  unknown_modules : gset string;
  modules : gset BuildModule;
  deps_only : gset BuildModule;
}.

Section Registry.
Context `{!SetOrder}.
Variable ALL_MODULES : list BuildModule.

(** [{m.name: m for m in ALL_MODULES}]: a later module of the same name
    replaces an earlier one. *)
Definition NAMES_TO_MODULES : gmap string BuildModule :=
  foldl (λ d m, <[name m := m]> d) ∅ ALL_MODULES.

(** The module objects of the registry. *)
Definition registered : gset BuildModule := list_to_set ALL_MODULES.

(** [x] names [y] among its dependencies. *)
Definition depends_on (x y : BuildModule) : Prop :=
  ∃ dep_name, dep_name ∈ deps x ∧ NAMES_TO_MODULES !! dep_name = Some y.

(** The body of the [for] loop of [_get_transitive_module_deps];
    [recurse] is the recursive call. *)
Definition visit_dep (recurse : BuildModule → closure → outcome closure)
    (st : closure) (dep_name : string) : outcome closure :=
  match NAMES_TO_MODULES !! dep_name with
  | None =>
      Returned {| c_deps := c_deps st;
                  c_unknown_deps := c_unknown_deps st ∪ {[dep_name]};
                  c_seen := c_seen st |}
  | Some dep =>
      if decide (dep ∈ c_seen st) then Returned st
      else recurse dep {| c_deps := c_deps st ∪ {[dep]};
                          c_unknown_deps := c_unknown_deps st;
                          c_seen := c_seen st |}
  end.

Fixpoint _get_transitive_module_deps (fuel : nat) (module : BuildModule)
    (st : closure) : outcome closure :=
  match fuel with
  | O => Diverged
  | S fuel =>
      let st := {| c_deps := c_deps st;
                   c_unknown_deps := c_unknown_deps st;
                   c_seen := c_seen st ∪ {[module]} |} in
      for_each (visit_dep (_get_transitive_module_deps fuel)) st
        (set_iter (deps module))
  end.

(** Every dependency named by [y] has been looked at: its module is in
    [seen], or its name is in [unknown_deps]. *)
Definition closed_in (st : closure) (y : BuildModule) : Prop :=
  ∀ dep_name, dep_name ∈ deps y →
    match NAMES_TO_MODULES !! dep_name with
    | Some dep => dep ∈ c_seen st
    | None => dep_name ∈ c_unknown_deps st
    end.

(** How the three sets grow during a traversal started at [root]: the
    modules newly seen are registered, reachable from [root], fully
    looked at, and they are exactly the modules added to [deps]; the
    names newly unknown are named by a module reachable from [root]. *)
Definition grows_from (root : BuildModule) (st st' : closure) : Prop :=
  c_seen st ⊆ c_seen st'
  ∧ c_unknown_deps st ⊆ c_unknown_deps st'
  ∧ c_deps st' = c_deps st ∪ (c_seen st' ∖ c_seen st)
  ∧ (∀ y, y ∈ c_seen st' → y ∉ c_seen st →
       y ∈ registered ∧ rtc depends_on root y ∧ closed_in st' y)
  ∧ (∀ n, n ∈ c_unknown_deps st' → n ∉ c_unknown_deps st →
       NAMES_TO_MODULES !! n = None
       ∧ ∃ x, rtc depends_on root x ∧ n ∈ deps x).

(** What a call of [_get_transitive_module_deps] on [module] achieves,
    from the state [st] it is given to the state [st'] it leaves. *)
Definition visited (root module : BuildModule) (st st' : closure) : Prop :=
  grows_from root
    {| c_deps := c_deps st; c_unknown_deps := c_unknown_deps st;
       c_seen := c_seen st ∪ {[module]} |} st'
  ∧ closed_in st' module.

(** The recursion is run with one unit of fuel per registered module,
    plus one for the module the caller passes. *)
Definition get_transitive_module_deps_fuel (fuel : nat) (module : BuildModule)
    : outcome (gset BuildModule * gset string) :=
  st ← _get_transitive_module_deps fuel module
         {| c_deps := ∅; c_unknown_deps := ∅; c_seen := ∅ |};
  Returned (c_deps st, c_unknown_deps st).

Definition get_transitive_module_deps (module : BuildModule)
    : outcome (gset BuildModule * gset string) :=
  get_transitive_module_deps_fuel (S (length ALL_MODULES)) module.

(** [', '.join(...)]. *)
Definition join (sep : string) (parts : list string) : string :=
  String.concat sep parts.

(** The body of the [for] loop of [get_modules_to_build]. *)
Definition select_module (module_names : list string) (st : selection)
    (name_ : string) : outcome selection :=
  let unknown_modules :=
    if decide (NAMES_TO_MODULES !! name_ = None)
    then unknown_modules st ∪ {[name_]}
    else unknown_modules st in
  module ← dict_getitem NAMES_TO_MODULES name_;
  let modules := modules st ∪ {[module]} in
  '(deps_, unknown_deps) ← get_transitive_module_deps module;
  let modules := modules ∪ deps_ in
  let deps_only :=
    foldl (λ acc dep,
             if decide (name dep ∈ module_names) then acc else acc ∪ {[dep]})
          (deps_only st) (set_iter deps_) in
  let unknown_modules := unknown_modules ∪ unknown_deps in
  Returned {| unknown_modules := unknown_modules;
              modules := modules;
              deps_only := deps_only |}.

Definition get_modules_to_build (module_names : list string)
    : outcome (list BuildModule * gset BuildModule) :=
  st ← for_each (select_module module_names)
         {| unknown_modules := ∅; modules := ∅; deps_only := ∅ |}
         module_names;
  if decide (unknown_modules st = ∅)
  then
    Returned (merge_sort (λ a b, String.le (name a) (name b))
                (set_iter (modules st)),
              deps_only st)
  else
    Raised (sys_exit_msg
              ("Unknown modules: " +:+
               join ", " (merge_sort String.le
                            (set_iter (unknown_modules st))))).

End Registry.

(** What a run of the build loop does, in order.  [EvBuild] and
    [EvInstall] happen in a worker process; the others in the
    orchestrator. *)
Inductive event : Type :=
  | EvAddTask (module : BuildModule)
  | EvComplete (module : BuildModule)
  | EvBuild (module : BuildModule) (ok : bool)
  | EvInstall (module : BuildModule)
  | EvGetResult (result : bool) (module : BuildModule)
  | EvUiClear
  | EvUiDraw
  | EvPrint (text : string)
  | EvAppend (path text : string).

#[export] Instance event_eq_dec : EqDecision event.
Proof. solve_decision. Defined.

Record BuildState : Type := {
  dm : DependencyManager;
  workqueue : list task;
  trace : list event;
}.

#[export] Instance BuildState_eq_dec : EqDecision BuildState.
Proof. solve_decision. Defined.

Definition emit (evs : list event) (st : BuildState) : BuildState :=
  {| dm := dm st; workqueue := workqueue st; trace := trace st ++ evs |}.

(** What the environment decides: a worker runs the task at position
    [i] of the queue, the build succeeding or not; or the blocked
    [get_result()] returns the result of the task at position [i]. *)
Inductive sched : Type :=
  | WorkerRuns (i : nat) (build_ok : bool)
  | ResultOf (i : nat).

(** [os.path.join(a, b)] for a relative [b]. *)
Definition os_path_join (a b : string) : string :=
  if decide (a = "") then b
  else if String.eqb (String.substring (String.length a - 1) 1 a) "/"
       then a +:+ b else a +:+ "/" +:+ b.

(** [launch_build] with [do_build] and [do_install], as run by a worker.
    [build_ok] tells whether [module.build()] returned ([do_build]
    catches what it raises and answers [False]); the module is installed
    only when its build succeeded, and [module.install()] is taken to
    return. *)
Definition launch_build (module : BuildModule) (build_ok : bool)
    : list event * (bool * BuildModule) :=
  if negb build_ok then ([EvBuild module false], (false, module))
  else ([EvBuild module true; EvInstall module], (true, module)).

Section Orchestrator.
Context `{!SetOrder}.
Variables (log_dir dist_dir : string).
Variables (skip_deps : bool) (skip_modules : gset BuildModule).
Variable smart_console : bool.
(** [module.log_path(log_dir)] and the contents of the file at a path. *)
Variable log_path : BuildModule → string → string.
Variable read_file : string → string.

Definition worker_runs (i : nat) (build_ok : bool) (st : BuildState)
    : BuildState :=
  match workqueue st !! i with
  | Some {| task_module := module; task_result := None |} =>
      let '(evs, (result, _)) := launch_build module build_ok in
      {| dm := dm st;
         workqueue :=
           <[i := {| task_module := module; task_result := Some result |}]>
             (workqueue st);
         trace := trace st ++ evs |}
  | _ => st
  end.

Definition log_build_failure (log_path_ dist_dir_ : string) : list event :=
  let contents := read_file log_path_ in
  let build_error_log := os_path_join dist_dir_ "logs/build_error.log" in
  [EvPrint contents;
   EvAppend build_error_log (String (ascii_of_nat 10) "");
   EvAppend build_error_log contents].

(** The body of the [for] loop of [launch_buildable]. *)
Definition launch_module (st : BuildState) (module : BuildModule)
    : BuildState :=
  if skip_deps && bool_decide (module ∈ skip_modules)
  then {| dm := complete module (dm st);
          workqueue := workqueue st;
          trace := trace st ++ [EvComplete module] |}
  else {| dm := dm st;
          workqueue := add_task module (workqueue st);
          trace := trace st ++ [EvAddTask module] |}.

(** The [while deps.buildable_modules:] loop. *)
Fixpoint launch_buildable_loop (fuel : nat) (st : BuildState) : BuildState :=
  match fuel with
  | O => st
  | S fuel =>
      if decide (buildable_modules (dm st) = ∅) then st
      else
        let '(buildable, dm') := get_buildable (dm st) in
        launch_buildable_loop fuel
          (foldl launch_module
             {| dm := dm'; workqueue := workqueue st; trace := trace st |}
             (set_iter buildable))
  end.

(** Every round of the loop takes at least one module out of the
    pending set, so one unit of fuel per pending module, plus one for
    the last test of the loop condition, is enough. *)
Definition launch_buildable (st : BuildState) : BuildState :=
  launch_buildable_loop (S (size (pending (dm st)))) st.

(** The [while not workqueue.finished():] loop, one step of the
    environment at a time.  The run is observed as long as the schedule
    lasts: when it ends while the orchestrator is blocked in
    [get_result()], the loop has not returned. *)
Fixpoint wait_for_build (schedule : list sched) (st : BuildState)
    : BuildState * outcome () :=
  if finished (workqueue st)
  then (emit [EvUiClear; EvPrint "Build finished"] st, Returned ())
  else
    match schedule with
    | [] => (st, Diverged)
    | WorkerRuns i build_ok :: schedule =>
        wait_for_build schedule (worker_runs i build_ok st)
    | ResultOf i :: schedule =>
        match get_result i (workqueue st) with
        | None => wait_for_build schedule st
        | Some (result, module, q) =>
            let st := {| dm := dm st; workqueue := q;
                         trace := trace st ++ [EvGetResult result module] |} in
            if negb result then
              (emit ([EvUiClear; EvPrint ("Build failed: " +:+ name module)]
                     ++ log_build_failure (log_path module log_dir) dist_dir)
                 st,
               Raised (sys_exit_code 1))
            else
              let st :=
                if negb smart_console
                then emit [EvUiClear;
                           EvPrint ("Build succeeded: " +:+ name module)] st
                else st in
              let st := {| dm := complete module (dm st);
                           workqueue := workqueue st;
                           trace := trace st ++ [EvComplete module] |} in
              let st := launch_buildable st in
              let st := emit [EvUiDraw] st in
              wait_for_build schedule st
        end
    end.

(** [module] is skipped rather than built. *)
Definition skipped (module : BuildModule) : Prop :=
  skip_deps = true ∧ module ∈ skip_modules.

(** What must have happened before an event: a module is handed to the
    work queue only when it is not skipped and, for each dependency it
    names, a module of that name has been marked complete; it is
    installed only after it was handed to the work queue; it is marked
    complete only when it is skipped or after it was installed. *)
Definition obligation (before : list event) (ev : event) : Prop :=
  match ev with
  | EvAddTask module =>
      ¬ skipped module
      ∧ ∀ n, n ∈ deps module → ∃ d, name d = n ∧ EvComplete d ∈ before
  | EvInstall module => EvAddTask module ∈ before
  | EvComplete module => skipped module ∨ EvInstall module ∈ before
  | _ => True
  end.

(** Events with nothing to check before them. *)
Definition display_only (ev : event) : Prop :=
  match ev with
  | EvAddTask _ | EvComplete _ | EvInstall _ => False
  | _ => True
  end.

(** A module of each name in [deps module] is completed. *)
Definition deps_done (d : DependencyManager) (module : BuildModule) : Prop :=
  ∀ n, n ∈ deps module → ∃ dep, name dep = n ∧ dep ∈ completed d.

Definition well_ordered (tr : list event) : Prop :=
  ∀ before ev after, tr = before ++ ev :: after → obligation before ev.

(** The invariant of the build loop. *)
Definition consistent (st : BuildState) : Prop :=
  well_ordered (trace st)
  ∧ (∀ t, t ∈ workqueue st →
       EvAddTask (task_module t) ∈ trace st
       ∧ (task_result t = Some true → EvInstall (task_module t) ∈ trace st))
  ∧ (∀ d, d ∈ completed (dm st) → EvComplete d ∈ trace st).

(** The build loop of [build_ndk], up to the check that nothing is left
    buildable; creating directories and notice files is left out, and so
    is the list of modules in the message of the error. *)
Definition build_ndk (modules_ : list BuildModule) (schedule : list sched)
    : BuildState * outcome () :=
  let st := {| dm := Deps.new modules_; workqueue := []; trace := [] |} in
  let st := launch_buildable st in
  let '(st, r) := wait_for_build schedule st in
  match r with
  | Returned _ =>
      let '(buildable, dm') := get_buildable (dm st) in
      let st := {| dm := dm'; workqueue := workqueue st; trace := trace st |} in
      if decide (buildable = ∅) then (st, Returned ())
      else (st, Raised (RuntimeError
                          "Builder stopped early. Modules are still buildable"))
  | _ => (st, r)
  end.

End Orchestrator.

End Checkbuild.

(** ** Concrete instances *)

Module Examples.
Import Builder Builds.

(** Two iteration orders for sets. *)
#[export] Program Instance elements_order : SetOrder :=
  {| set_iter := λ A _ _ s, elements s |}.
Next Obligation. done. Qed.

Program Definition reversed_order : SetOrder :=
  {| set_iter := λ A _ _ s, reverse (elements s) |}.
Next Obligation. intros. apply reverse_Permutation. Qed.

(** The registry of [ndk/checkbuild.py]. *)
Definition NDK_MODULES : list BuildModule := [
  {| name := "base-toolchain";
     deps := {["clang"; "libandroid_support"; "make"; "platforms"; "sysroot";
               "system-stl"; "yasm"]} |};
  {| name := "canary-readme"; deps := ∅ |};
  {| name := "changelog"; deps := ∅ |};
  {| name := "clang"; deps := ∅ |};
  {| name := "cpufeatures"; deps := ∅ |};
  {| name := "gdb"; deps := ∅ |};
  {| name := "gtest"; deps := ∅ |};
  {| name := "libandroid_support"; deps := ∅ |};
  {| name := "libshaderc"; deps := ∅ |};
  {| name := "libc++";
     deps := {["base-toolchain"; "libandroid_support"; "ndk-build";
               "ndk-build-shortcut"]} |};
  {| name := "libc++abi"; deps := ∅ |};
  {| name := "make"; deps := {["clang"]} |};
  {| name := "meta"; deps := {["base-toolchain"]} |};
  {| name := "native_app_glue"; deps := ∅ |};
  {| name := "ndk-build"; deps := {["meta"; "clang"]} |};
  {| name := "ndk-build-shortcut"; deps := ∅ |};
  {| name := "ndk-gdb"; deps := ∅ |};
  {| name := "ndk-gdb-shortcut"; deps := ∅ |};
  {| name := "ndk-lldb-shortcut"; deps := ∅ |};
  {| name := "ndk_helper"; deps := ∅ |};
  {| name := "ndk-stack"; deps := ∅ |};
  {| name := "ndk-stack-shortcut"; deps := ∅ |};
  {| name := "ndk-which"; deps := ∅ |};
  {| name := "ndk-which-shortcut"; deps := ∅ |};
  {| name := "platforms"; deps := {["clang"]} |};
  {| name := "python"; deps := ∅ |};
  {| name := "python-packages"; deps := ∅ |};
  {| name := "readme"; deps := ∅ |};
  {| name := "renderscript-libs"; deps := ∅ |};
  {| name := "renderscript-toolchain"; deps := ∅ |};
  {| name := "shader-tools"; deps := {["clang"]} |};
  {| name := "simpleperf"; deps := ∅ |};
  {| name := "source.properties"; deps := ∅ |};
  {| name := "sysroot"; deps := ∅ |};
  {| name := "system-stl"; deps := ∅ |};
  {| name := "toolbox"; deps := ∅ |};
  {| name := "toolchain";
     deps := {["base-toolchain"; "libc++"; "libc++abi"; "platforms"]} |};
  {| name := "vulkan"; deps := ∅ |};
  {| name := "wrap.sh"; deps := ∅ |};
  {| name := "yasm"; deps := ∅ |}
].

(** Two modules that depend on each other, and the same two without
    the cycle. *)
Definition cyclic_A : BuildModule := {| name := "A"; deps := {["B"]} |}.
Definition cyclic_B : BuildModule := {| name := "B"; deps := {["A"]} |}.
Definition acyclic_B : BuildModule := {| name := "B"; deps := ∅ |}.

(** Two modules, the second depending on the first. *)
Definition module_A : BuildModule := {| name := "A"; deps := ∅ |}.
Definition module_B : BuildModule := {| name := "B"; deps := {["A"]} |}.

Definition demo_log_path (module : BuildModule) (log_dir : string) : string :=
  log_dir +:+ "/" +:+ name module +:+ ".log".

Definition demo_read_file (path : string) : string := "log of " +:+ path.

(** The build of [module_B] has been dispatched and has failed in its
    worker. *)
Definition failed_B : Checkbuild.BuildState :=
  {| Checkbuild.dm :=
       {| Deps.pending := ∅; Deps.in_flight := {[module_B]};
          Deps.completed := {[module_A]} |};
     Checkbuild.workqueue :=
       [{| Workqueue.task_module := module_B;
           Workqueue.task_result := Some false |}];
     Checkbuild.trace := [] |}.

(** A module that names a dependency the registry does not have. *)
Definition module_X : BuildModule := {| name := "X"; deps := {["Y"]} |}.

(** A build test described by what its methods answer. *)
Record DemoTest : Type := {
  demo_name : string;
  demo_unsupported : option string;
  demo_build : outcome (bool * string);
  demo_negative : bool;
  demo_broken : option string * option string;
}.

#[export] Instance DemoTest_class : TestClass DemoTest string () := {|
  test_str t := demo_name t;
  check_unsupported t := Returned (demo_unsupported t);
  run t _ _ _ :=
    '(passed, message) ← demo_build t;
    Returned (if passed : bool then Success t else Failure t message, []);
  is_negative_test t := Returned (demo_negative t);
  check_broken t := Returned (demo_broken t);
|}.

Definition demo_format_exc (e : PyExc) : string :=
  match e with
  | KeyError k => "KeyError: " +:+ k
  | ValueError m => "ValueError: " +:+ m
  | RuntimeError m => "RuntimeError: " +:+ m
  | AssertionError => "AssertionError"
  | OtherException d => d
  | KeyboardInterrupt => "KeyboardInterrupt"
  | SystemExit _ m => "SystemExit: " +:+ m
  end.

(** [tests/build/neon_tags_have_no_effect] for x86: unsupported. *)
Definition neon_tags_x86 : DemoTest :=
  {| demo_name := "neon_tags_have_no_effect";
     demo_unsupported := Some "x86";
     demo_build := Returned (true, "");
     demo_negative := false;
     demo_broken := (None, None) |}.

(** The layering of the docstring of [is_negative_test]: a negative test
    that is also marked broken for armeabi. *)
Definition layered_test (build_passes : bool) : DemoTest :=
  {| demo_name := "layered";
     demo_unsupported := None;
     demo_build := Returned (build_passes, "error: expected failure");
     demo_negative := true;
     demo_broken := (Some "armeabi", Some "http://b/1") |}.

Definition negative_test (build_passes : bool) : DemoTest :=
  {| demo_name := "negative";
     demo_unsupported := None;
     demo_build := Returned (build_passes, "error: expected failure");
     demo_negative := true;
     demo_broken := (None, None) |}.

(** A test whose build is interrupted from the keyboard. *)
Definition interrupted_test : DemoTest :=
  {| demo_name := "interrupted";
     demo_unsupported := None;
     demo_build := Raised KeyboardInterrupt;
     demo_negative := false;
     demo_broken := (None, None) |}.

Definition crashing_test : DemoTest :=
  {| demo_name := "crashing";
     demo_unsupported := None;
     demo_build := Raised (RuntimeError "Could not import test.py");
     demo_negative := false;
     demo_broken := (None, None) |}.

End Examples.

(** ** What [get_modules_to_build] selects *)

Module Selected.
Import Builds Checkbuild.

Section Registry.
Variable ALL_MODULES : list BuildModule.

(** [x] is the module of a requested name, or a module that one of them
    depends on, directly or through other modules. *)
Definition selected (module_names : list string) (x : BuildModule) : Prop :=
  ∃ n r, n ∈ module_names
         ∧ NAMES_TO_MODULES ALL_MODULES !! n = Some r
         ∧ rtc (depends_on ALL_MODULES) r x.

(** [n] is named as a dependency by a selected module, and no module of
    that name is registered. *)
Definition unknown_dependency (module_names : list string) (n : string)
    : Prop :=
  NAMES_TO_MODULES ALL_MODULES !! n = None
  ∧ ∃ x, selected module_names x ∧ n ∈ deps x.

(** Every dependency named in the registry is registered. *)
Definition registry_closed : Prop :=
  Forall (λ m, set_Forall (λ n, is_Some (NAMES_TO_MODULES ALL_MODULES !! n))
                 (deps m))
         ALL_MODULES.

End Registry.

(** The order of [sorted(modules, key=str)]. *)
Definition name_le (a b : BuildModule) : Prop := String.le (name a) (name b).

End Selected.

(** ** What the build loop keeps track of *)

Module Progress.
Import Builds Deps Workqueue Checkbuild.

(** The modules handed to the work queue, in the order of the trace. *)
Definition dispatched (tr : list event) : list BuildModule :=
  omap (λ ev, match ev with EvAddTask module => Some module | _ => None end)
       tr.

(** The modules of the tasks that are in the work queue. *)
Definition queued (q : list task) : list BuildModule := task_module <$> q.

(** A retrieved result was a failure. *)
Definition failure_retrieved (tr : list event) : Prop :=
  ∃ module, EvGetResult false module ∈ tr.

(** The bookkeeping of the build loop over the modules [modules_], with
    [rest] the modules that [get_buildable] handed out and that the
    [for] loop of [launch_buildable] has yet to treat: no module is
    dispatched twice; only modules of the list are pending or
    dispatched, and a dispatched module is no longer pending; a
    dispatched module has its task in the queue or was marked complete,
    unless a failure ended the loop; a module in flight has its task in
    the queue; every module of the list is pending, in flight or
    completed. *)
Definition tracked (modules_ rest : list BuildModule) (st : BuildState)
    : Prop :=
  NoDup (dispatched (trace st) ++ rest)
  ∧ (∀ m, m ∈ dispatched (trace st) ∨ m ∈ pending (dm st) ∨ m ∈ rest →
       m ∈ modules_)
  ∧ (∀ m, m ∈ dispatched (trace st) ∨ m ∈ rest → m ∉ pending (dm st))
  ∧ (∀ m, m ∈ dispatched (trace st) →
       m ∈ queued (workqueue st) ∨ EvComplete m ∈ trace st
       ∨ failure_retrieved (trace st))
  ∧ (∀ m, m ∈ in_flight (dm st) →
       m ∈ queued (workqueue st) ∨ m ∈ rest ∨ failure_retrieved (trace st))
  ∧ (∀ m, m ∈ modules_ →
       m ∈ pending (dm st) ∨ m ∈ in_flight (dm st) ∨ m ∈ completed (dm st)).

(** Each dependency named by a module of the list is the name of a
    module of the list. *)
Definition dependencies_listed (modules_ : list BuildModule) : Prop :=
  ∀ m n, m ∈ modules_ → n ∈ deps m → ∃ d, d ∈ modules_ ∧ name d = n.

(** [rank] decreases along the dependencies of the list: there is no
    dependency cycle. *)
Definition ranked (rank : BuildModule → nat) (modules_ : list BuildModule)
    : Prop :=
  ∀ m d, m ∈ modules_ → d ∈ modules_ → name d ∈ deps m →
    (rank d < rank m)%nat.

End Progress.

(** ** Selecting and building ([main] of [ndk/checkbuild.py]) *)

Module Main.
Import Builds Checkbuild.

Section Main.
Context `{!SetOrder}.
Variable ALL_MODULES : list BuildModule.
Variables (log_dir dist_dir : string).
Variables (skip_deps smart_console : bool).
Variable log_path : BuildModule → string → string.
Variable read_file : string → string.

(** The modules that [main] prints as the ones being built:
    [[m for m in modules if not args.skip_deps or m not in deps_only]]. *)
Definition announced_modules (modules_ : list BuildModule)
    (deps_only_ : gset BuildModule) : list BuildModule :=
  filter (λ m, skip_deps = false ∨ m ∉ deps_only_) modules_.

(** The part of [main] that selects the modules for the names given,
    prints them and calls [build_ndk] with the dependencies selected as
    the modules to skip; what comes before (arguments, environment) and
    after (packaging, tests) is left out.  The result is the trace of
    the run and how it ended. *)
Definition main_build (module_names : list string) (schedule : list sched)
    : list event * outcome () :=
  match get_modules_to_build ALL_MODULES module_names with
  | Returned (modules_, deps_only_) =>
      let announcement :=
        EvPrint ("Building modules: "
                 +:+ join " " (name <$> announced_modules modules_ deps_only_))
      in
      let '(st, r) :=
        build_ndk log_dir dist_dir skip_deps deps_only_ smart_console
          log_path read_file modules_ schedule in
      (announcement :: trace st, r)
  | Raised e => ([], Raised e)
  | Diverged => ([], Diverged)
  end.

End Main.

End Main.

(** ** A test whose methods are scripted *)

Module Scripted.
Import Builder.

(** A test given by what each of its methods does. *)
Record ScriptedTest : Type := {
  scripted_name : string;
  scripted_check_unsupported : outcome (option string);
  scripted_run : outcome bool;
  scripted_is_negative_test : outcome bool;
  scripted_check_broken : outcome (option string * option string);
}.

(** The build action answers Success or Failure and asks for the test
    to be run once more. *)
#[export] Instance ScriptedTest_class : TestClass ScriptedTest string () := {|
  test_str t := scripted_name t;
  check_unsupported t := scripted_check_unsupported t;
  run t _ _ _ :=
    passed ← scripted_run t;
    Returned (if passed : bool then Success t else Failure t "build failed",
              [t]);
  is_negative_test t := scripted_is_negative_test t;
  check_broken t := scripted_check_broken t;
|}.

(** A test that builds, with a [test_config.py] whose [build_broken]
    raises. *)
Definition misconfigured_test : ScriptedTest :=
  {| scripted_name := "misconfigured";
     scripted_check_unsupported := Returned None;
     scripted_run := Returned true;
     scripted_is_negative_test := Returned false;
     scripted_check_broken := Raised (RuntimeError "bad test_config.py") |}.

(** A test interrupted from the keyboard while [check_broken()] runs. *)
Definition interrupted_late_test : ScriptedTest :=
  {| scripted_name := "interrupted";
     scripted_check_unsupported := Returned None;
     scripted_run := Returned true;
     scripted_is_negative_test := Returned false;
     scripted_check_broken := Raised KeyboardInterrupt |}.

End Scripted.

(** ** The suites of a test builder ([ndk/test/builder.py]) *)

Module TestBuilder.

Section Builder.
Context {Test Path Scanner : Type} `{Countable Path}.
(** [test.get_build_dir(Path(""))] and [str(test)]. *)
Variable get_build_dir : Test → Path.
Variable test_str : Test → string.
(** The file system as [scan_test_suite] reads it, [suite_dir / dentry],
    [path.name], and [test_scanner.find_tests(path, test_name)]; the
    scanner classes are not among the sources. *)
Variable listdir : Path → list string.
Variable is_dir : Path → bool.
Variable path_join : Path → string → Path.
Variable path_name : Path → string.
Variable scanner_find_tests : Scanner → Path → string → list Test.

Definition scan_test_suite (suite_dir : Path) (test_scanner : Scanner)
    : list Test :=
  foldl (λ tests dentry,
           let path := path_join suite_dir dentry in
           if is_dir path
           then let test_name := path_name path in
                tests ++ scanner_find_tests test_scanner path test_name
           else tests)
        [] (listdir suite_dir).

(** The two dicts of a [TestBuilder]. *)
Record TestBuilder : Type := {
  tests : gmap string (list Test);
  build_dirs : gmap Path (string * Test);
}.

(** The dicts are updated in place: what was stored before an exception
    is raised stays stored. *)
Fixpoint check_no_overlapping_build_dirs (suite : string)
    (new_tests : list Test) (self : TestBuilder)
    : TestBuilder * outcome () :=
  match new_tests with
  | [] => (self, Returned ())
  | test :: new_tests =>
      let build_dir := get_build_dir test in
      match build_dirs self !! build_dir with
      | Some (dup_suite, dup_test) =>
          (self,
           Raised (RuntimeError
                     ("Found duplicate build directory:"
                      +:+ String (ascii_of_nat 10) ""
                      +:+ dup_suite +:+ " " +:+ test_str dup_test
                      +:+ String (ascii_of_nat 10) ""
                      +:+ suite +:+ " " +:+ test_str test)))
      | None =>
          check_no_overlapping_build_dirs suite new_tests
            {| tests := tests self;
               build_dirs := <[build_dir := (suite, test)]> (build_dirs self) |}
      end
  end.

Definition add_suite (name : string) (path : Path) (test_scanner : Scanner)
    (self : TestBuilder) : TestBuilder * outcome () :=
  if decide (name ∈ dom (tests self))
  then (self, Raised (KeyError ("suite " +:+ name +:+ " already exists")))
  else
    let new_tests := scan_test_suite path test_scanner in
    let '(self, r) := check_no_overlapping_build_dirs name new_tests self in
    match r with
    | Returned _ =>
        ({| tests := <[name := new_tests]> (tests self);
            build_dirs := build_dirs self |},
         Returned ())
    | _ => (self, r)
    end.

(** One statement after another on the same builder. *)
Definition and_then (first next : TestBuilder → TestBuilder * outcome ())
    (self : TestBuilder) : TestBuilder * outcome () :=
  let '(self, r) := first self in
  match r with
  | Returned _ => next self
  | _ => (self, r)
  end.

(** [find_tests], from the three scanners once the build configurations
    have been added to them. *)
Definition find_tests (suites : list string) (src_dir : Path)
    (scanner nodist_scanner libcxx_scanner : Scanner)
    : TestBuilder → TestBuilder * outcome () :=
  let when_listed name (test_scanner : Scanner) self :=
    if decide (name ∈ suites)
    then add_suite name (path_join src_dir name) test_scanner self
    else (self, Returned ()) in
  and_then (when_listed "build" nodist_scanner)
    (and_then (when_listed "device" scanner)
       (when_listed "libc++" libcxx_scanner)).

(** [TestBuilder.__init__], as far as the two dicts go. *)
Definition TestBuilder_init (suites : list string) (src_dir : Path)
    (scanner nodist_scanner libcxx_scanner : Scanner)
    : TestBuilder * outcome () :=
  find_tests suites src_dir scanner nodist_scanner libcxx_scanner
    {| tests := ∅; build_dirs := ∅ |}.

(** Every test of a suite owns its build directory: the directory is
    recorded for that suite and that test, and no other test of the
    suite has it. *)
Definition build_dirs_owned (self : TestBuilder) : Prop :=
  ∀ suite suite_tests, tests self !! suite = Some suite_tests →
    NoDup (get_build_dir <$> suite_tests)
    ∧ ∀ test, test ∈ suite_tests →
        build_dirs self !! get_build_dir test = Some (suite, test).

(** No test of [new_tests] has a recorded build directory, and no two
    of them have the same. *)
Definition fresh_build_dirs (new_tests : list Test) (self : TestBuilder)
    : Prop :=
  NoDup (get_build_dir <$> new_tests)
  ∧ ∀ test, test ∈ new_tests →
      build_dirs self !! get_build_dir test = None.

End Builder.

Arguments TestBuilder _ _ {_ _}.

(** A suite directory with two tests and a file, scanned for a list of
    configurations: a test is a name and a build directory. *)
Definition demo_listdir (path : string) : list string :=
  if String.eqb path "tests/build" then ["a"; "b"; "README"] else [].

Definition demo_is_dir (path : string) : bool :=
  negb (String.eqb path "tests/build/README").

Definition demo_path_join (path name : string) : string :=
  path +:+ "/" +:+ name.

Definition demo_find_tests (configs : list string) (path name : string)
    : list (string * string) :=
  (λ config, (name, name +:+ "/" +:+ config)) <$> configs.

Definition demo_add_suite (name path : string) (configs : list string)
    : TestBuilder (string * string) string
      → TestBuilder (string * string) string * outcome () :=
  add_suite snd fst demo_listdir demo_is_dir demo_path_join (λ path, path)
    demo_find_tests name path configs.

End TestBuilder.

(** ** Platform API levels and system libraries ([ndk/checkbuild.py]) *)

Module Platforms.
Import Spec.


(** The body of the loop of [Platforms.get_apis], on the name of a
    directory entry. *)
Definition get_apis_entry (min_supported_api : Z) (apis : list Z)
    (name : string) : outcome (list Z) :=
  if negb (startswith name "android-") then Returned apis
  else
    '(_, api_str) ← unpack2 (split "-" name);
    match int_str api_str with
    | Returned api_ =>
        if bool_decide (min_supported_api ≤ api_)
        then Returned (apis ++ [api_]) else Returned apis
    | Raised (ValueError _) =>
        Raised (ValueError
                  ("No codenamed API is allowed: " +:+ api_str
                   +:+ String (ascii_of_nat 10) ""
                   +:+ "Use the update_platform.py tool from the "
                   +:+ "platform/prebuilts/ndk dev branch to remove or "
                   +:+ "rename it."))
    | Raised e => Raised e
    | Diverged => Diverged
    end.

(** [Platforms.get_apis], given the names of the entries of the
    [platforms] directory in the order [iterdir()] yields them. *)
Definition get_apis (min_supported_api : Z) (names : list string)
    : outcome (list Z) :=
  apis ← for_each (get_apis_entry min_supported_api) [] names;
  Returned (merge_sort Z.le apis).

End Platforms.

Module Meta.
Import Checkbuild.

(** [s.endswith(suffix)]. *)
Definition endswith (s suffix : string) : bool :=
  (String.length suffix <=? String.length s)%nat
  && String.eqb (String.substring (String.length s - String.length suffix)
                   (String.length suffix) s)
                suffix.

(** The order of [sorted(system_libs.items())]: pairs of strings, by
    the first component and then by the second. *)
Definition item_le (a b : string * string) : Prop :=
  if decide (a.1 = b.1) then String.le a.2 b.2 else String.le a.1 b.1.

#[export] Instance item_le_dec : RelDecision item_le.
Proof.
  intros a b. unfold item_le. destruct (decide (a.1 = b.1)); apply _.
Defined.

(** A shared library other than the linker script [libc++.so]. *)
Definition system_library (lib : string) : Prop :=
  endswith lib ".so" = true ∧ startswith lib "lib" = true
  ∧ lib ≠ "libc++.so".

Section SystemLibs.
(** [os.listdir] and [os.path.isdir]. *)
Variable listdir : string → list string.
Variable isdir : string → bool.

(** The body of the inner loop of [create_system_libs_meta]. *)
Definition scan_library (api_name : string)
    (system_libs : gmap string string) (lib : string)
    : outcome (gmap string string) :=
  if negb (endswith lib ".so") then Returned system_libs
  else if negb (startswith lib "lib")
  then Raised (RuntimeError ("Found unexpected file in sysroot: " +:+ lib))
  else if String.eqb lib "libc++.so" then Returned system_libs
  else if decide (lib ∈ dom system_libs) then Returned system_libs
  else Returned (<[lib := api_name]> system_libs).

(** The body of the outer loop. *)
Definition scan_api (sysroot_base : string)
    (system_libs : gmap string string) (api_name : string)
    : outcome (gmap string string) :=
  let path := os_path_join sysroot_base api_name in
  if negb (isdir path) then Returned system_libs
  else for_each (scan_library api_name) system_libs (listdir path).

(** [Meta.create_system_libs_meta], up to the items it hands to
    [json.dump]. *)
Definition create_system_libs_meta (sysroot_base : string)
    : outcome (list (string * string)) :=
  system_libs ← for_each (scan_api sysroot_base) ∅
                  (merge_sort String.le (listdir sysroot_base));
  Returned (merge_sort item_le (map_to_list system_libs)).

(** The version directory [api_name] holds the file [lib]. *)
Definition provides (sysroot_base api_name lib : string) : Prop :=
  isdir (os_path_join sysroot_base api_name) = true
  ∧ lib ∈ listdir (os_path_join sysroot_base api_name).

(** [api_name] is the first of the entries of the sysroot, in the order
    of strings, that holds [lib]. *)
Definition first_provider (sysroot_base api_name lib : string) : Prop :=
  api_name ∈ listdir sysroot_base
  ∧ provides sysroot_base api_name lib
  ∧ ∀ api_name', api_name' ∈ listdir sysroot_base →
      provides sysroot_base api_name' lib → String.le api_name api_name'.

(** Some version directory holds a shared object whose name does not
    start with [lib]. *)
Definition unexpected_file (sysroot_base lib : string) : Prop :=
  endswith lib ".so" = true ∧ startswith lib "lib" = false
  ∧ ∃ api_name, api_name ∈ listdir sysroot_base
                ∧ provides sysroot_base api_name lib.

End SystemLibs.

(** A sysroot with the version directories 16 and 21 and a file. *)
Definition demo_sysroot_listdir (path : string) : list string :=
  if String.eqb path "sysroot" then ["21"; "libc.a"; "16"]
  else if String.eqb path "sysroot/16"
  then ["libc.so"; "crtbegin.o"; "libm.so"; "libc++.so"]
  else if String.eqb path "sysroot/21"
  then ["libm.so"; "libc.so"; "libmediandk.so"]
  else [].

Definition demo_sysroot_isdir (path : string) : bool :=
  String.eqb path "sysroot/16" || String.eqb path "sysroot/21".

End Meta.

(** * Properties *)

(** ** The test runner *)

Module BuilderProofs.
Import Builder Examples.

Section RunTest.
Context {Test Path TestFilter : Type} `{!TestClass Test Path TestFilter}.
Variable format_exc : PyExc → string.
Variables (suite : string) (test : Test) (obj_dir dist_dir : Path).
Variable test_filters : TestFilter.

(** The run of a supported test whose methods all return: the result of
    the build action goes through the negative-test inversion, then
    through the broken-configuration stage. *)
Lemma run_test_returned result additional negative config bug :
  check_unsupported test = Returned None →
  run test obj_dir dist_dir test_filters = Returned (result, additional) →
  is_negative_test test = Returned negative →
  check_broken test = Returned (config, bug) →
  _run_test format_exc suite test obj_dir dist_dir test_filters =
    ([SetStatus ("Building " +:+ test_str test); CallCheckUnsupported test;
      CallRun test; CallIsNegativeTest test; CallCheckBroken test],
     let inverted := if negative then _fixup_negative_test result else result in
     match config, bug with
     | Some c, Some b =>
         Returned (suite, _fixup_expected_failure inverted c b, additional)
     | Some c, None =>
         Returned (suite, Failure test (format_exc AssertionError), [])
     | None, _ => Returned (suite, inverted, additional)
     end).
Proof.
  intros Hu Hr Hn Hb. unfold _run_test, call, perform.
  rewrite Hu, Hr, Hn, Hb. by destruct config, bug.
Qed.

(** C3 (amended): [_fixup_negative_test] maps a Failure to Success for
    the same test and a Success to Failure with the message "negative
    test case succeeded".  In [_run_test] the inversion is applied
    exactly when [is_negative_test()] holds; for a test that has no
    broken configuration ([check_broken] returns a [None]
    configuration) the inverted result is the final one, so a negative
    test whose build action returns a Failure yields Success and one
    whose build action returns Success yields that Failure. *)
Theorem negative_test_inversion result additional negative bug :
  check_unsupported test = Returned None →
  run test obj_dir dist_dir test_filters = Returned (result, additional) →
  is_negative_test test = Returned negative →
  check_broken test = Returned (None, bug) →
  (∀ (t : Test) message, _fixup_negative_test (Failure t message) = Success t)
  ∧ (∀ t : Test, _fixup_negative_test (Success t)
                 = Failure t "negative test case succeeded")
  ∧ (_run_test format_exc suite test obj_dir dist_dir test_filters).2
    = Returned (suite,
                if negative then _fixup_negative_test result else result,
                additional)
  ∧ (negative = true → ∀ t message, result = Failure t message →
     (_run_test format_exc suite test obj_dir dist_dir test_filters).2
     = Returned (suite, Success t, additional))
  ∧ (negative = true → ∀ t, result = Success t →
     (_run_test format_exc suite test obj_dir dist_dir test_filters).2
     = Returned (suite, Failure t "negative test case succeeded", additional)).
Proof.
  intros Hu Hr Hn Hb.
  rewrite (run_test_returned _ _ _ _ _ Hu Hr Hn Hb). cbn.
  repeat split; try done.
  - by intros -> t message ->.
  - by intros -> t ->.
Qed.

(** C4: with a broken configuration and its bug, [_fixup_expected_failure]
    maps Failure to ExpectedFailure and Success to UnexpectedSuccess,
    both tagged with the configuration and the bug, and leaves Skipped,
    ExpectedFailure and UnexpectedSuccess as they are.  In [_run_test]
    it is applied to the result of the negative-test inversion when
    [check_broken()] returns a configuration; when [check_broken()]
    returns [None] the inverted result passes through unchanged. *)
Theorem expected_failure_reclassification result additional negative config bug :
  check_unsupported test = Returned None →
  run test obj_dir dist_dir test_filters = Returned (result, additional) →
  is_negative_test test = Returned negative →
  check_broken test = Returned (config, bug) →
  (∀ (t : Test) message c b,
     _fixup_expected_failure (Failure t message) c b
     = ExpectedFailure t message c b)
  ∧ (∀ (t : Test) c b,
       _fixup_expected_failure (Success t) c b = UnexpectedSuccess t c b)
  ∧ (∀ (r : TestResult Test) c b,
       (∀ t message, r ≠ Failure t message) → (∀ t, r ≠ Success t) →
       _fixup_expected_failure r c b = r)
  ∧ (_run_test format_exc suite test obj_dir dist_dir test_filters).2
    = let inverted :=
        if negative then _fixup_negative_test result else result in
      match config, bug with
      | Some c, Some b =>
          Returned (suite, _fixup_expected_failure inverted c b, additional)
      | Some c, None =>
          Returned (suite, Failure test (format_exc AssertionError), [])
      | None, _ => Returned (suite, inverted, additional)
      end.
Proof.
  intros Hu Hr Hn Hb.
  rewrite (run_test_returned _ _ _ _ _ Hu Hr Hn Hb).
  repeat split; try done.
  intros [] c b Hf Hs; try done.
  - by destruct (Hs test0).
  - by destruct (Hf test0 message).
Qed.

(** C5: a test whose [check_unsupported()] returns a configuration [C]
    is answered with Skipped, the message "test unsupported for C" and
    no additional tests; the only call made on the test is
    [check_unsupported()], so its run action is never invoked. *)
Theorem unsupported_test_skipped C :
  check_unsupported test = Returned (Some C) →
  _run_test format_exc suite test obj_dir dist_dir test_filters
  = ([SetStatus ("Building " +:+ test_str test); CallCheckUnsupported test],
     Returned (suite, Skipped test ("test unsupported for " +:+ C), []))
  ∧ ∀ t, CallRun t
         ∉ (_run_test format_exc suite test obj_dir dist_dir test_filters).1.
Proof.
  intros Hu. unfold _run_test, call, perform. rewrite Hu. cbn.
  split; [done|]. intros t Hin.
  repeat (apply elem_of_cons in Hin as [?|Hin]; [done|]).
  by apply elem_of_nil in Hin.
Qed.

(** C7 (amended): an exception that is an instance of [Exception],
    raised by the build action of a supported test, is caught in
    [_run_test], which returns the suite, a Failure carrying the
    formatted traceback, and no additional tests; nothing is raised to
    the caller. *)
Theorem run_test_exception_is_failure e :
  check_unsupported test = Returned None →
  run test obj_dir dist_dir test_filters = Raised e →
  is_Exception e = true →
  _run_test format_exc suite test obj_dir dist_dir test_filters
  = ([SetStatus ("Building " +:+ test_str test); CallCheckUnsupported test;
      CallRun test],
     Returned (suite, Failure test (format_exc e), [])).
Proof.
  intros Hu Hr He. unfold _run_test, call, perform.
  rewrite Hu, Hr. cbn. by rewrite He.
Qed.

End RunTest.

(** C3, as stated, fails on a negative test that is also marked broken:
    its failing build is inverted to Success and then reclassified, so
    the run yields UnexpectedSuccess and not Success. *)
Lemma negative_broken_test_counterexample :
  is_negative_test (layered_test false) = Returned true
  ∧ run (layered_test false) "obj" "dist" ()
    = Returned (Failure (layered_test false) "error: expected failure", [])
  ∧ (_run_test demo_format_exc "build" (layered_test false) "obj" "dist" ()).2
    = Returned ("build",
                UnexpectedSuccess (layered_test false) "armeabi" "http://b/1",
                [])
  ∧ (_run_test demo_format_exc "build" (layered_test false) "obj" "dist" ()).2
    ≠ Returned ("build", Success (layered_test false), []).
Proof. repeat split; done. Qed.

(** C7, as stated, fails for an exception that derives from
    [BaseException] only: [except Exception] does not catch a
    [KeyboardInterrupt] raised by the build action, and [_run_test]
    raises it to its caller. *)
Lemma interrupted_test_counterexample :
  run interrupted_test "obj" "dist" () = Raised KeyboardInterrupt
  ∧ (_run_test demo_format_exc "build" interrupted_test "obj" "dist" ()).2
    = Raised KeyboardInterrupt.
Proof. split; reflexivity. Qed.

Lemma negative_test_inversion_witness :
  (_run_test demo_format_exc "build" (negative_test false) "obj" "dist" ()).2
  = Returned ("build", Success (negative_test false), []).
Proof.
  refine (proj1 (proj2 (proj2 (proj2
    (negative_test_inversion demo_format_exc "build" (negative_test false)
       "obj" "dist" ()
       (Failure (negative_test false) "error: expected failure") [] true None
       _ _ _ _)))) eq_refl (negative_test false) _ eq_refl);
  reflexivity.
Defined.

Lemma expected_failure_reclassification_witness :
  (_run_test demo_format_exc "build" (layered_test true) "obj" "dist" ()).2
  = Returned ("build",
              ExpectedFailure (layered_test true)
                "negative test case succeeded" "armeabi" "http://b/1",
              []).
Proof.
  refine (proj2 (proj2 (proj2
    (expected_failure_reclassification demo_format_exc "build"
       (layered_test true) "obj" "dist" ()
       (Success (layered_test true)) [] true
       (Some "armeabi") (Some "http://b/1") _ _ _ _))));
  reflexivity.
Defined.

Lemma unsupported_test_skipped_witness :
  (_run_test demo_format_exc "build" neon_tags_x86 "obj" "dist" ()).2
  = Returned ("build", Skipped neon_tags_x86 "test unsupported for x86", []).
Proof.
  refine (f_equal snd (proj1
    (unsupported_test_skipped demo_format_exc "build" neon_tags_x86
       "obj" "dist" () "x86" _)));
  reflexivity.
Defined.

Lemma run_test_exception_is_failure_witness :
  (_run_test demo_format_exc "build" crashing_test "obj" "dist" ()).2
  = Returned ("build",
              Failure crashing_test "RuntimeError: Could not import test.py",
              []).
Proof.
  refine (f_equal snd
    (run_test_exception_is_failure demo_format_exc "build" crashing_test
       "obj" "dist" () (RuntimeError "Could not import test.py") _ _ _));
  reflexivity.
Defined.

End BuilderProofs.

(** Closed facts about concrete inputs are decided by evaluation. *)
Ltac by_evaluation :=
  lazymatch goal with
  | |- ?P => refine (@bool_decide_unpack P _ _); vm_compute; exact I
  end.

(** ** The transitive closure of the dependencies *)

Module ClosureProofs.
Import Builds Checkbuild Examples.
Local Open Scope nat_scope.

Section Closure.
Context `{!SetOrder}.
Variable ALL_MODULES : list BuildModule.

Lemma NAMES_TO_MODULES_registered n d :
  NAMES_TO_MODULES ALL_MODULES !! n = Some d → d ∈ registered ALL_MODULES.
Proof.
  unfold registered, NAMES_TO_MODULES.
  assert (Hfold : ∀ (l : list BuildModule) (acc : gmap string BuildModule),
    foldl (λ d m, <[name m := m]> d) acc l !! n = Some d →
    acc !! n = Some d ∨ d ∈ l).
  { induction l as [|m l IH]; intros acc; cbn; [by left|].
    intros [Hacc|Hl]%IH; [|right; by right].
    apply lookup_insert_Some in Hacc as [[_ <-]|[_ ?]];
      [right; by left|by left]. }
  intros [Hempty|Hl]%Hfold; [by rewrite lookup_empty in Hempty|].
  by apply elem_of_list_to_set.
Qed.

Lemma size_registered : size (registered ALL_MODULES) ≤ length ALL_MODULES.
Proof.
  unfold registered. induction ALL_MODULES as [|m l IH]; cbn.
  - by rewrite size_empty.
  - rewrite size_union_alt, size_singleton.
    assert (Hsub : size (list_to_set l ∖ {[m]} : gset BuildModule)
                   ≤ size (list_to_set l : gset BuildModule)).
    { apply subseteq_size. set_solver. }
    lia.
Qed.

Variable root : BuildModule.

Lemma closed_in_mono st st' y :
  c_seen st ⊆ c_seen st' → c_unknown_deps st ⊆ c_unknown_deps st' →
  closed_in ALL_MODULES st y → closed_in ALL_MODULES st' y.
Proof.
  intros Hseen Hunk Hclosed n Hn. specialize (Hclosed n Hn).
  destruct (NAMES_TO_MODULES ALL_MODULES !! n); set_solver.
Qed.

Lemma grows_from_refl st : grows_from ALL_MODULES root st st.
Proof. unfold grows_from. split_and!; set_solver. Qed.

Lemma grows_from_trans st1 st2 st3 :
  grows_from ALL_MODULES root st1 st2 →
  grows_from ALL_MODULES root st2 st3 →
  grows_from ALL_MODULES root st1 st3.
Proof.
  intros (Hs12 & Hu12 & Hd12 & Hn12 & Hk12) (Hs23 & Hu23 & Hd23 & Hn23 & Hk23).
  split_and!.
  - set_solver.
  - set_solver.
  - rewrite Hd23, Hd12. apply set_eq. intros y.
    destruct (decide (y ∈ c_seen st2)); set_solver.
  - intros y Hy3 Hy1. destruct (decide (y ∈ c_seen st2)) as [Hy2|Hy2].
    + destruct (Hn12 y Hy2 Hy1) as (? & ? & ?).
      split_and!; [done..|]. by eapply closed_in_mono.
    + by apply Hn23.
  - intros n Hn3 Hn1. destruct (decide (n ∈ c_unknown_deps st2)); auto.
Qed.

(** One more module seen leaves strictly fewer registered modules
    unseen. *)
Lemma unseen_decreases (seen : gset BuildModule) dep :
  dep ∈ registered ALL_MODULES → dep ∉ seen →
  size (registered ALL_MODULES ∖ (seen ∪ {[dep]}))
  < size (registered ALL_MODULES ∖ seen).
Proof.
  intros Hreg Hseen. apply subset_size.
  apply strict_spec_alt. split; [set_solver|].
  intros Heq. assert (dep ∈ registered ALL_MODULES ∖ seen) as Hin by set_solver.
  rewrite <- Heq in Hin. set_solver.
Qed.

Lemma unseen_mono (seen seen' : gset BuildModule) :
  seen ⊆ seen' →
  size (registered ALL_MODULES ∖ seen') ≤ size (registered ALL_MODULES ∖ seen).
Proof. intros Hsub. apply subseteq_size. set_solver. Qed.

Section Loop.
Variables (recurse : BuildModule → closure → outcome closure) (fuel : nat).
Variable module : BuildModule.
Hypothesis module_reachable : rtc (depends_on ALL_MODULES) root module.
Hypothesis recurse_spec : ∀ dep st,
  rtc (depends_on ALL_MODULES) root dep →
  size (registered ALL_MODULES ∖ (c_seen st ∪ {[dep]})) < fuel →
  ∃ st', recurse dep st = Returned st' ∧ visited ALL_MODULES root dep st st'.

(** One round of the [for] loop, on a name of a dependency of
    [module]. *)
Lemma visit_dep_spec st n :
  n ∈ deps module →
  size (registered ALL_MODULES ∖ c_seen st) ≤ fuel →
  ∃ st', visit_dep ALL_MODULES recurse st n = Returned st'
         ∧ grows_from ALL_MODULES root st st'
         ∧ match NAMES_TO_MODULES ALL_MODULES !! n with
           | Some dep => dep ∈ c_seen st'
           | None => n ∈ c_unknown_deps st'
           end.
Proof.
  intros Hn Hfuel. unfold visit_dep.
  destruct (NAMES_TO_MODULES ALL_MODULES !! n) as [dep|] eqn:Hlook.
  - destruct (decide (dep ∈ c_seen st)) as [Hseen|Hseen].
    { exists st. split_and!; [done|apply grows_from_refl|done]. }
    assert (Hdeproot : rtc (depends_on ALL_MODULES) root dep).
    { eapply rtc_r; [done|]. by exists n. }
    assert (Hdepreg : dep ∈ registered ALL_MODULES)
      by by eapply NAMES_TO_MODULES_registered.
    destruct (recurse_spec dep {| c_deps := c_deps st ∪ {[dep]};
                                  c_unknown_deps := c_unknown_deps st;
                                  c_seen := c_seen st |})
      as (st1 & Hrun & (Hs & Hu & Hd & Hnew & Hunk) & Hclosed); [done|..].
    { cbn. eapply Nat.lt_le_trans; [by apply unseen_decreases|done]. }
    cbn in *. exists st1. split_and!; [done| |set_solver].
    split_and!.
    + set_solver.
    + done.
    + rewrite Hd. apply set_eq. intros y.
      destruct (decide (y = dep)) as [->|]; set_solver.
    + intros y Hy1 Hy. destruct (decide (y = dep)) as [->|Hne]; [done|].
      apply Hnew; set_solver.
    + done.
  - eexists. split_and!; [done| |cbn; set_solver].
    split_and!; cbn; [set_solver..| |].
    + intros y ? ?. done.
    + intros n0 Hn0 Hn0'. assert (n0 = n) as -> by set_solver.
      split; [done|]. by exists module.
Qed.

(** The whole [for] loop over names of dependencies of [module]. *)
Lemma for_each_dep_spec names st :
  (∀ n, n ∈ names → n ∈ deps module) →
  size (registered ALL_MODULES ∖ c_seen st) ≤ fuel →
  ∃ st', for_each (visit_dep ALL_MODULES recurse) st names = Returned st'
         ∧ grows_from ALL_MODULES root st st'
         ∧ ∀ n, n ∈ names →
             match NAMES_TO_MODULES ALL_MODULES !! n with
             | Some dep => dep ∈ c_seen st'
             | None => n ∈ c_unknown_deps st'
             end.
Proof.
  revert st. induction names as [|n names IH]; intros st Hnames Hfuel; cbn.
  { eexists. split_and!; [done|apply grows_from_refl|].
    by intros n ?%elem_of_nil. }
  destruct (visit_dep_spec st n) as (st1 & -> & Hgrow & Hdone);
    [apply Hnames; by left|done|]. cbn.
  destruct (IH st1) as (st' & Hrun & Hgrow' & Hdone').
  { intros; apply Hnames; by right. }
  { etrans; [apply unseen_mono, Hgrow|done]. }
  exists st'. split_and!; [done|by eapply grows_from_trans|].
  intros n0 [->|Hn0]%elem_of_cons; [|by apply Hdone'].
  destruct Hgrow' as (Hs & Hu & _).
  destruct (NAMES_TO_MODULES ALL_MODULES !! n); set_solver.
Qed.

End Loop.

(** A call with enough fuel returns. *)
Lemma get_transitive_module_deps_rec_spec fuel module st :
  rtc (depends_on ALL_MODULES) root module →
  size (registered ALL_MODULES ∖ (c_seen st ∪ {[module]})) < fuel →
  ∃ st', _get_transitive_module_deps ALL_MODULES fuel module st = Returned st'
         ∧ visited ALL_MODULES root module st st'.
Proof.
  revert module st. induction fuel as [|fuel IH]; intros module st Hroot Hfuel;
    [lia|]. cbn.
  destruct (for_each_dep_spec (_get_transitive_module_deps ALL_MODULES fuel)
              fuel module Hroot IH (set_iter (deps module))
              {| c_deps := c_deps st; c_unknown_deps := c_unknown_deps st;
                 c_seen := c_seen st ∪ {[module]} |})
    as (st' & Hrun & Hgrow & Hdone).
  { intros n. rewrite set_iter_perm. apply elem_of_elements. }
  { cbn. lia. }
  exists st'. split; [done|]. split; [done|].
  intros n Hn. apply Hdone. rewrite set_iter_perm. by apply elem_of_elements.
Qed.

End Closure.

(** The result of the closure, whatever the iteration order and the
    fuel beyond one unit per registered module: the modules reachable
    from [module] other than [module] itself, and the unknown names that
    [module] or a module reachable from it names. *)
Lemma get_transitive_module_deps_fuel_spec
    (order : SetOrder) ALL_MODULES module fuel :
  length ALL_MODULES < fuel →
  ∃ deps_ unknown_deps,
    get_transitive_module_deps_fuel ALL_MODULES fuel module
    = Returned (deps_, unknown_deps)
    ∧ (∀ d, d ∈ deps_ ↔ d ≠ module ∧ rtc (depends_on ALL_MODULES) module d)
    ∧ (∀ n, n ∈ unknown_deps ↔
         NAMES_TO_MODULES ALL_MODULES !! n = None
         ∧ ∃ x, rtc (depends_on ALL_MODULES) module x ∧ n ∈ deps x).
Proof.
  intros Hfuel. unfold get_transitive_module_deps_fuel.
  destruct (get_transitive_module_deps_rec_spec ALL_MODULES module fuel module
              {| c_deps := ∅; c_unknown_deps := ∅; c_seen := ∅ |})
    as (st & -> & (Hs & Hu & Hd & Hnew & Hunk) & Hclosed); [done|..].
  { pose proof (size_registered ALL_MODULES) as Hsize.
    pose proof (unseen_mono ALL_MODULES ∅ (∅ ∪ {[module]})) as Hmono.
    assert (registered ALL_MODULES ∖ ∅ = registered ALL_MODULES) as Heq
      by set_solver.
    cbn. rewrite Heq in Hmono. specialize (Hmono ltac:(set_solver)). lia. }
  cbn in *. eexists _, _. split; [done|].
  assert (Hseen : ∀ y, y ∈ c_seen st →
            rtc (depends_on ALL_MODULES) module y ∧ closed_in ALL_MODULES st y).
  { intros y Hy. destruct (decide (y = module)) as [->|Hne]; [done|].
    destruct (Hnew y) as (_ & ? & ?); [done|set_solver|done]. }
  assert (Hreach : ∀ y, rtc (depends_on ALL_MODULES) module y → y ∈ c_seen st).
  { apply (rtc_ind_r (λ y, y ∈ c_seen st) module).
    - set_solver.
    - intros y z _ (n & Hn & Hlook) IH.
      destruct (Hseen y IH) as [_ Hcl]. specialize (Hcl n Hn).
      by rewrite Hlook in Hcl. }
  split.
  - intros d. rewrite Hd. split.
    + intros Hin. assert (d ∈ c_seen st ∧ d ≠ module) as [Hds ?] by set_solver.
      split; [done|]. by apply Hseen.
    + intros [Hne Hd']. apply Hreach in Hd'. set_solver.
  - intros n. split.
    + intros Hn. apply Hunk; [done|set_solver].
    + intros (Hlook & x & Hx & Hn). apply Hreach, Hseen in Hx as [_ Hcl].
      specialize (Hcl n Hn). by rewrite Hlook in Hcl.
Qed.

(** C8 (amended): the closure computation terminates on every module
    graph, with or without a dependency cycle: it returns a pair
    (deps, unknown_deps), and more fuel than one unit per registered
    module changes nothing.  A module already seen is skipped silently
    (a cycle is not reported here).  Computing the closure again for the
    same module gives the same pair, whatever the order in which the
    sets of dependency names are iterated: deps are the modules
    reachable from the module other than itself, unknown_deps the
    unregistered names met on the way. *)
Theorem get_transitive_module_deps_terminates ALL_MODULES module :
  ∃ deps_ unknown_deps,
    (∀ order : SetOrder,
       @get_transitive_module_deps order ALL_MODULES module
       = Returned (deps_, unknown_deps))
    ∧ (∀ (order : SetOrder) fuel,
         length ALL_MODULES < fuel →
         @get_transitive_module_deps_fuel order ALL_MODULES fuel module
         = Returned (deps_, unknown_deps))
    ∧ (∀ d, d ∈ deps_ ↔ d ≠ module ∧ rtc (depends_on ALL_MODULES) module d)
    ∧ (∀ n, n ∈ unknown_deps ↔
         NAMES_TO_MODULES ALL_MODULES !! n = None
         ∧ ∃ x, rtc (depends_on ALL_MODULES) module x ∧ n ∈ deps x).
Proof.
  destruct (get_transitive_module_deps_fuel_spec elements_order ALL_MODULES
              module (S (length ALL_MODULES)))
    as (deps_ & unknown_deps & _ & Hdeps & Hunknown); [lia|].
  exists deps_, unknown_deps.
  assert (Hany : ∀ (order : SetOrder) fuel,
    length ALL_MODULES < fuel →
    @get_transitive_module_deps_fuel order ALL_MODULES fuel module
    = Returned (deps_, unknown_deps)).
  { intros order fuel Hfuel.
    destruct (get_transitive_module_deps_fuel_spec order ALL_MODULES
                module fuel Hfuel)
      as (deps' & unknown' & -> & Hdeps' & Hunknown').
    do 2 f_equal; apply set_eq; intros x.
    - by rewrite Hdeps, Hdeps'.
    - by rewrite Hunknown, Hunknown'. }
  split_and!; [|done..].
  intros order. apply Hany. lia.
Qed.

(** C8, as stated, fails on a cycle: with two modules that depend on
    each other the computation returns as it does without the cycle,
    with the other module as only dependency and no unknown name;
    nothing is raised and nothing in the result tells the cycle. *)
Lemma cycle_not_reported_counterexample :
  depends_on [cyclic_A; cyclic_B] cyclic_A cyclic_B
  ∧ depends_on [cyclic_A; cyclic_B] cyclic_B cyclic_A
  ∧ get_transitive_module_deps [cyclic_A; cyclic_B] cyclic_A
    = Returned ({[cyclic_B]}, ∅)
  ∧ get_transitive_module_deps [cyclic_A; acyclic_B] cyclic_A
    = Returned ({[acyclic_B]}, ∅).
Proof.
  split_and!.
  - exists "B". split; by_evaluation.
  - exists "A". split; by_evaluation.
  - by_evaluation.
  - by_evaluation.
Qed.

(** The closure of ndk-build in the registry of [checkbuild.py], under
    two iteration orders. *)
Example ndk_build_closure :
  let expected : gset BuildModule :=
    list_to_set
      (filter (λ m, name m ∈ ["meta"; "clang"; "base-toolchain";
                              "libandroid_support"; "make"; "platforms";
                              "sysroot"; "system-stl"; "yasm"])
         NDK_MODULES) in
  let ndk_build := {| name := "ndk-build"; deps := {["meta"; "clang"]} |} in
  @get_transitive_module_deps elements_order NDK_MODULES ndk_build
  = Returned (expected, ∅)
  ∧ @get_transitive_module_deps reversed_order NDK_MODULES ndk_build
    = Returned (expected, ∅).
Proof. cbv zeta. split; by_evaluation. Qed.

(** *** Module selection *)

Section Selection.
Context `{!SetOrder}.
Variable ALL_MODULES : list BuildModule.

Lemma select_module_known module_names st n :
  is_Some (NAMES_TO_MODULES ALL_MODULES !! n) →
  ∃ st', select_module ALL_MODULES module_names st n = Returned st'.
Proof.
  intros [module Hlook].
  unfold select_module, dict_getitem, get_transitive_module_deps.
  rewrite Hlook. cbn -[get_transitive_module_deps_fuel].
  destruct (get_transitive_module_deps_fuel_spec _ ALL_MODULES module
              (S (length ALL_MODULES)))
    as (deps_ & unknown_deps & -> & _); [lia|]. cbn. eauto.
Qed.

Lemma select_module_unknown module_names st n :
  NAMES_TO_MODULES ALL_MODULES !! n = None →
  select_module ALL_MODULES module_names st n = Raised (KeyError n).
Proof. intros Hlook. unfold select_module, dict_getitem. by rewrite Hlook. Qed.

(** C6 (the code departs from it): a requested name that is not in the
    registry is added to [unknown_modules], but the lookup that follows
    raises [KeyError] for it at once: the first unknown requested name
    ends the selection, before any unknown name is reported together
    with the others. *)
Theorem get_modules_to_build_first_unknown_name known n rest :
  (∀ x, x ∈ known → is_Some (NAMES_TO_MODULES ALL_MODULES !! x)) →
  NAMES_TO_MODULES ALL_MODULES !! n = None →
  get_modules_to_build ALL_MODULES (known ++ n :: rest) = Raised (KeyError n).
Proof.
  intros Hknown Hn. unfold get_modules_to_build.
  generalize (known ++ n :: rest) at 1. intros module_names.
  generalize ({| unknown_modules := ∅; modules := ∅; deps_only := ∅ |}).
  induction known as [|k known IH]; intros st; cbn.
  - by rewrite select_module_unknown.
  - destruct (select_module_known module_names st k) as [st' ->].
    { apply Hknown. by left. }
    cbn. apply IH. intros x Hx. apply Hknown. by right.
Qed.

End Selection.

Lemma get_modules_to_build_first_unknown_name_witness :
  get_modules_to_build NDK_MODULES ["clang"; "bogus"; "mystery"]
  = Raised (KeyError "bogus").
Proof.
  apply (get_modules_to_build_first_unknown_name NDK_MODULES ["clang"]).
  - intros x ->%list_elem_of_singleton. by_evaluation.
  - by_evaluation.
Defined.

(** Unknown names of dependencies, on the other hand, are collected and
    reported together. *)
Example get_modules_to_build_unknown_dependency :
  get_modules_to_build [module_X] ["X"]
  = Raised (SystemExit 1 "Unknown modules: Y").
Proof. by_evaluation. Qed.

End ClosureProofs.


(** ** The build loop *)

Module OrchestratorProofs.
Import Builds Deps Workqueue Checkbuild Examples.
Local Open Scope nat_scope.

Section Orchestrator.
Context `{!SetOrder}.
Variables (log_dir dist_dir : string).
Variables (skip_deps : bool) (skip_modules : gset BuildModule).
Variable smart_console : bool.
Variable log_path : BuildModule → string → string.
Variable read_file : string → string.

Lemma skipped_iff module :
  skip_deps && bool_decide (module ∈ skip_modules) = true
  ↔ skipped skip_deps skip_modules module.
Proof.
  unfold skipped. rewrite andb_true_iff, bool_decide_eq_true. done.
Qed.

(** *** Traces *)

Lemma snoc_split {A} (l before after : list A) x ev :
  l ++ [x] = before ++ ev :: after →
  (after = [] ∧ before = l ∧ ev = x)
  ∨ ∃ after', after = after' ++ [x] ∧ l = before ++ ev :: after'.
Proof.
  destruct after as [|y after _] using rev_ind.
  - intros Heq. apply (app_inj_tail l before x ev) in Heq as [-> ->]. by left.
  - intros Heq. right. exists after.
    rewrite app_comm_cons, app_assoc in Heq.
    by apply app_inj_tail in Heq as [-> ->].
Qed.

Lemma well_ordered_snoc tr ev :
  well_ordered skip_deps skip_modules tr →
  obligation skip_deps skip_modules tr ev →
  well_ordered skip_deps skip_modules (tr ++ [ev]).
Proof.
  intros Htr Hev before ev' after Heq.
  apply snoc_split in Heq as [(_ & -> & ->)|(after' & _ & ->)]; [done|].
  by eapply Htr.
Qed.

Lemma well_ordered_app tr evs :
  well_ordered skip_deps skip_modules tr →
  (∀ before ev after, evs = before ++ ev :: after →
     obligation skip_deps skip_modules (tr ++ before) ev) →
  well_ordered skip_deps skip_modules (tr ++ evs).
Proof.
  revert tr. induction evs as [|ev evs IH]; intros tr Htr Hevs.
  - by rewrite app_nil_r.
  - rewrite cons_middle, app_assoc. apply IH.
    + apply well_ordered_snoc; [done|].
      specialize (Hevs [] ev evs eq_refl). by rewrite app_nil_r in Hevs.
    + intros before ev' after ->.
      specialize (Hevs (ev :: before) ev' after eq_refl).
      by rewrite <- app_assoc.
Qed.

Lemma well_ordered_display_only tr evs :
  well_ordered skip_deps skip_modules tr →
  Forall display_only evs →
  well_ordered skip_deps skip_modules (tr ++ evs).
Proof.
  intros Htr Hevs. apply well_ordered_app; [done|].
  intros before ev after ->.
  apply Forall_app in Hevs as [_ [Hev _]%Forall_cons]. by destruct ev.
Qed.

(** In a well-ordered trace a skipped module is never installed. *)
Lemma skipped_not_installed tr d :
  well_ordered skip_deps skip_modules tr →
  skipped skip_deps skip_modules d → EvInstall d ∉ tr.
Proof.
  intros Htr Hskip (before & after & ->)%list_elem_of_split.
  pose proof (Htr _ _ _ eq_refl) as (before' & after' & ->)%list_elem_of_split.
  rewrite <- app_assoc in Htr.
  by destruct (Htr _ _ _ eq_refl) as [Hnot _].
Qed.

(** In a well-ordered trace installs follow the dependencies. *)
Lemma well_ordered_installs tr before module after n :
  well_ordered skip_deps skip_modules tr →
  tr = before ++ EvInstall module :: after →
  n ∈ deps module →
  ∃ d, name d = n
       ∧ (EvInstall d ∈ before
          ∨ (skipped skip_deps skip_modules d ∧ EvInstall d ∉ tr)).
Proof.
  intros Htr -> Hn.
  pose proof (Htr _ _ _ eq_refl) as (b1 & a1 & ->)%list_elem_of_split.
  pose proof Htr as Htr1. rewrite <- app_assoc in Htr1.
  destruct (Htr1 _ _ _ eq_refl) as [_ Hdeps].
  destruct (Hdeps n Hn) as (d & Hd & (b2 & a2 & ->)%list_elem_of_split).
  exists d. split; [done|].
  rewrite <- !app_assoc in Htr1.
  destruct (Htr1 _ _ _ eq_refl) as [Hskip|Hin].
  - right. split; [done|]. by apply skipped_not_installed.
  - left. rewrite !elem_of_app. naive_solver.
Qed.

(** *** The invariant of the loop *)

Lemma consistent_init modules_ :
  consistent skip_deps skip_modules
    {| dm := Deps.new modules_; workqueue := []; trace := [] |}.
Proof.
  split_and!; cbn.
  - intros [|? ?] ev after Heq; discriminate Heq.
  - by intros t ?%elem_of_nil.
  - intros d Hd. set_solver.
Qed.

Lemma consistent_emit st evs :
  Forall display_only evs →
  consistent skip_deps skip_modules st →
  consistent skip_deps skip_modules (emit evs st).
Proof.
  intros Hevs (Htr & Hq & Hc). split_and!; cbn.
  - by apply well_ordered_display_only.
  - intros t Ht. destruct (Hq t Ht) as [Hadd Hinst].
    rewrite !elem_of_app. naive_solver.
  - intros d Hd. rewrite elem_of_app. auto.
Qed.

Lemma deps_done_mono d d' module :
  completed d ⊆ completed d' → deps_done d module → deps_done d' module.
Proof.
  intros Hsub Hdone n Hn. destruct (Hdone n Hn) as (dep & ? & ?).
  exists dep. set_solver.
Qed.

Lemma launch_module_consistent st module :
  consistent skip_deps skip_modules st →
  deps_done (dm st) module →
  consistent skip_deps skip_modules
    (launch_module skip_deps skip_modules st module)
  ∧ completed (dm st)
    ⊆ completed (dm (launch_module skip_deps skip_modules st module)).
Proof.
  intros (Htr & Hq & Hc) Hdone. unfold launch_module.
  destruct (skip_deps && bool_decide (module ∈ skip_modules)) eqn:Hskip.
  - apply skipped_iff in Hskip. split; [|cbn; set_solver].
    split_and!; cbn.
    + apply well_ordered_snoc; [done|]. by left.
    + intros t Ht. destruct (Hq t Ht). rewrite !elem_of_app. naive_solver.
    + intros d [Hd|Hd]%elem_of_union; rewrite elem_of_app; [auto|].
      apply elem_of_singleton in Hd as ->. right. by left.
  - assert (¬ skipped skip_deps skip_modules module) as Hnot.
    { intros ?%skipped_iff. congruence. }
    split; [|done]. split_and!; cbn.
    + apply well_ordered_snoc; [done|]. split; [done|].
      intros n Hn. destruct (Hdone n Hn) as (d & ? & ?). eauto.
    + unfold add_task. intros t [Ht|Ht]%elem_of_app.
      * destruct (Hq t Ht). rewrite !elem_of_app. naive_solver.
      * apply list_elem_of_singleton in Ht as ->. cbn.
        split; [|done]. rewrite elem_of_app. right. by left.
    + intros d Hd. rewrite elem_of_app. auto.
Qed.

Lemma foldl_launch_module_consistent modules_ st :
  consistent skip_deps skip_modules st →
  (∀ module, module ∈ modules_ → deps_done (dm st) module) →
  consistent skip_deps skip_modules
    (foldl (launch_module skip_deps skip_modules) st modules_).
Proof.
  revert st. induction modules_ as [|module modules_ IH]; intros st Hst Hdone;
    cbn; [done|].
  destruct (launch_module_consistent st module) as [Hst' Hsub];
    [done|apply Hdone; by left|].
  apply IH; [done|]. intros m Hm.
  eapply deps_done_mono; [done|]. apply Hdone. by right.
Qed.

Lemma launch_buildable_loop_consistent fuel st :
  consistent skip_deps skip_modules st →
  consistent skip_deps skip_modules
    (launch_buildable_loop skip_deps skip_modules fuel st).
Proof.
  revert st. induction fuel as [|fuel IH]; intros st Hst; cbn; [done|].
  case_decide as Hempty; [done|].
  apply IH, foldl_launch_module_consistent; [done|].
  intros module Hmodule n Hn. cbn.
  rewrite set_iter_perm in Hmodule.
  apply elem_of_elements, elem_of_filter in Hmodule as [Hsub _].
  apply Hsub, elem_of_map in Hn as (dep & -> & Hdep). eauto.
Qed.

Lemma launch_buildable_consistent st :
  consistent skip_deps skip_modules st →
  consistent skip_deps skip_modules
    (launch_buildable skip_deps skip_modules st).
Proof. apply launch_buildable_loop_consistent. Qed.

Lemma worker_runs_consistent i build_ok st :
  consistent skip_deps skip_modules st →
  consistent skip_deps skip_modules (worker_runs i build_ok st).
Proof.
  intros (Htr & Hq & Hc). unfold worker_runs.
  destruct (workqueue st !! i) as [[module [result|]]|] eqn:Hi; [done| |done].
  destruct (Hq _ (list_elem_of_lookup_2 _ _ _ Hi)) as [Hadd _]. cbn in Hadd.
  unfold launch_build.
  destruct build_ok; cbn; (split_and!; cbn).
  - apply well_ordered_app; [done|].
    intros [|? [|? [|? ?]]] ev after [= <- <-]; [done|]. cbn.
    rewrite elem_of_app. auto.
  - intros t (j & Hj)%list_elem_of_lookup.
    apply list_lookup_insert_Some in Hj as [(_ & <- & _)|[_ Hj]]; cbn.
    + rewrite !elem_of_app, !elem_of_cons. naive_solver.
    + destruct (Hq _ (list_elem_of_lookup_2 _ _ _ Hj)).
      rewrite !elem_of_app. naive_solver.
  - intros d Hd. rewrite elem_of_app. auto.
  - apply well_ordered_display_only; [done|]. by repeat constructor.
  - intros t (j & Hj)%list_elem_of_lookup.
    apply list_lookup_insert_Some in Hj as [(_ & <- & _)|[_ Hj]]; cbn.
    + rewrite !elem_of_app. naive_solver.
    + destruct (Hq _ (list_elem_of_lookup_2 _ _ _ Hj)).
      rewrite !elem_of_app. naive_solver.
  - intros d Hd. rewrite elem_of_app. auto.
Qed.

Lemma complete_consistent st module :
  consistent skip_deps skip_modules st →
  EvInstall module ∈ trace st →
  consistent skip_deps skip_modules
    {| dm := complete module (dm st); workqueue := workqueue st;
       trace := trace st ++ [EvComplete module] |}.
Proof.
  intros (Htr & Hq & Hc) Hinst. split_and!; cbn.
  - apply well_ordered_snoc; [done|]. by right.
  - intros t Ht. destruct (Hq t Ht). rewrite !elem_of_app. naive_solver.
  - intros d [Hd|Hd]%elem_of_union; rewrite elem_of_app; [auto|].
    apply elem_of_singleton in Hd as ->. right. by left.
Qed.

Lemma get_result_consistent st i result module q :
  consistent skip_deps skip_modules st →
  get_result i (workqueue st) = Some (result, module, q) →
  consistent skip_deps skip_modules
    {| dm := dm st; workqueue := q;
       trace := trace st ++ [EvGetResult result module] |}
  ∧ (result = true → EvInstall module ∈ trace st).
Proof.
  intros (Htr & Hq & Hc) Hget. unfold get_result in Hget.
  destruct (workqueue st !! i) as [[m [r|]]|] eqn:Hi; simplify_eq.
  destruct (Hq _ (list_elem_of_lookup_2 _ _ _ Hi)) as [_ Hinst]. cbn in Hinst.
  split; [|by intros ->; apply Hinst].
  split_and!; cbn.
  - apply well_ordered_display_only; [done|]. by repeat constructor.
  - intros t Ht%list_elem_of_delete_inv. destruct (Hq t Ht).
    rewrite !elem_of_app. naive_solver.
  - intros d Hd. rewrite elem_of_app. auto.
Qed.

Lemma wait_for_build_consistent schedule st :
  consistent skip_deps skip_modules st →
  consistent skip_deps skip_modules
    (wait_for_build log_dir dist_dir skip_deps skip_modules smart_console
       log_path read_file schedule st).1.
Proof.
  revert st.
  induction schedule as [|[i build_ok|i] schedule IH]; intros st Hst;
    cbn -[launch_buildable];
    (destruct (finished (workqueue st));
     [by apply consistent_emit; [repeat constructor|]|]).
  - done.
  - by apply IH, worker_runs_consistent.
  - destruct (get_result i (workqueue st)) as [[[result module] q]|] eqn:Hget;
      [|by apply IH].
    destruct (get_result_consistent st i result module q Hst Hget)
      as [Hst1 Hinst].
    destruct result; cbn -[launch_buildable].
    + apply IH, consistent_emit; [by repeat constructor|].
      apply launch_buildable_consistent.
      destruct smart_console; cbn.
      * apply (complete_consistent
                 {| dm := dm st; workqueue := q;
                    trace := trace st ++ [EvGetResult true module] |});
          [done|]. cbn. rewrite elem_of_app. auto.
      * apply (complete_consistent
                 (emit [EvUiClear;
                        EvPrint ("Build succeeded: " +:+ name module)]
                    {| dm := dm st; workqueue := q;
                       trace := trace st ++ [EvGetResult true module] |}));
          [apply consistent_emit; [by repeat constructor|done]|].
        cbn. rewrite !elem_of_app. auto.
    + apply consistent_emit; [by repeat constructor|done].
Qed.

Lemma build_ndk_consistent modules_ schedule :
  well_ordered skip_deps skip_modules
    (trace (build_ndk log_dir dist_dir skip_deps skip_modules smart_console
              log_path read_file modules_ schedule).1).
Proof.
  unfold build_ndk.
  pose proof (wait_for_build_consistent schedule _
    (launch_buildable_consistent _ (consistent_init modules_))) as Hst.
  destruct (wait_for_build _ _ _ _ _ _ _ _ _) as [st r].
  destruct Hst as [Htr _]. cbn [fst] in Htr.
  destruct r as [[]| |]; [|done..]. cbn. by case_decide.
Qed.

(** C1: in every run of the build loop, under every schedule of the
    workers, a module is handed to the work queue only after, for each
    dependency it names, a module of that name has been marked complete
    with [deps.complete]; hence a module is installed only after the
    modules it depends on have been installed (those skipped with
    [--skip-deps] are marked complete without being built, and are
    never installed in the run). *)
Theorem modules_launched_after_dependencies modules_ schedule :
  let tr := trace (build_ndk log_dir dist_dir skip_deps skip_modules
                     smart_console log_path read_file modules_ schedule).1 in
  (∀ before module after,
     tr = before ++ EvAddTask module :: after →
     ∀ n, n ∈ deps module → ∃ d, name d = n ∧ EvComplete d ∈ before)
  ∧ (∀ before module after,
       tr = before ++ EvInstall module :: after →
       ∀ n, n ∈ deps module →
         ∃ d, name d = n
              ∧ (EvInstall d ∈ before
                 ∨ (skipped skip_deps skip_modules d ∧ EvInstall d ∉ tr))).
Proof.
  intros tr. pose proof (build_ndk_consistent modules_ schedule) as Htr.
  fold tr in Htr. split.
  - intros before module after Heq n Hn.
    destruct (Htr _ _ _ Heq) as [_ Hdeps]. by apply Hdeps.
  - intros before module after Heq n Hn.
    by eapply well_ordered_installs.
Qed.

(** C2: when the result retrieved by [get_result()] is a failure,
    [wait_for_build] prints the failing module, prints its log and
    appends it to the error log, and exits with status 1.  The
    dependency manager is left as it was (the module is not marked
    complete), the work queue only loses the retrieved task (nothing is
    dispatched), and the rest of the schedule plays no part (no further
    result is awaited).  This holds at every round of the loop, the
    first one included. *)
Theorem wait_for_build_fails_fast st i module q rest :
  get_result i (workqueue st) = Some (false, module, q) →
  wait_for_build log_dir dist_dir skip_deps skip_modules smart_console
    log_path read_file (ResultOf i :: rest) st
  = ({| dm := dm st;
        workqueue := q;
        trace :=
          trace st
          ++ [EvGetResult false module; EvUiClear;
              EvPrint ("Build failed: " +:+ name module);
              EvPrint (read_file (log_path module log_dir));
              EvAppend (os_path_join dist_dir "logs/build_error.log")
                (String (ascii_of_nat 10) "");
              EvAppend (os_path_join dist_dir "logs/build_error.log")
                (read_file (log_path module log_dir))] |},
     Raised (SystemExit 1 "")).
Proof.
  intros Hget. cbn.
  assert (finished (workqueue st) = false) as ->.
  { unfold get_result in Hget. unfold finished.
    destruct (workqueue st); [done|]. by apply bool_decide_eq_false. }
  rewrite Hget. cbn. unfold emit. cbn. by rewrite <- app_assoc.
Qed.

(** *** The fuel of [launch_buildable] *)

Lemma launch_module_pending st module :
  pending (dm (launch_module skip_deps skip_modules st module))
  = pending (dm st).
Proof. unfold launch_module. by destruct (_ && _). Qed.

Lemma foldl_launch_module_pending modules_ st :
  pending (dm (foldl (launch_module skip_deps skip_modules) st modules_))
  = pending (dm st).
Proof.
  revert st. induction modules_ as [|module modules_ IH]; intros st; cbn;
    [done|]. by rewrite IH, launch_module_pending.
Qed.

Lemma launch_buildable_loop_exits fuel st :
  size (pending (dm st)) < fuel →
  buildable_modules
    (dm (launch_buildable_loop skip_deps skip_modules fuel st)) = ∅.
Proof.
  revert st. induction fuel as [|fuel IH]; intros st Hfuel; [lia|]. cbn.
  case_decide as Hempty; [done|].
  apply IH. rewrite foldl_launch_module_pending. cbn.
  assert (buildable_modules (dm st) ⊆ pending (dm st)) as Hsub.
  { unfold buildable_modules. intros m Hm. by apply elem_of_filter in Hm as [_ ?]. }
  apply set_choose_L in Hempty as [m Hm].
  assert (size (pending (dm st) ∖ buildable_modules (dm st))
          < size (pending (dm st))); [|lia].
  apply subset_size. apply strict_spec_alt. split; [set_solver|].
  intros Heq. assert (m ∈ pending (dm st)) as Hin by set_solver.
  rewrite <- Heq in Hin. set_solver.
Qed.

(** The [while] loop of [launch_buildable] ends by its own test: when
    it returns, no module is buildable. *)
Lemma launch_buildable_exits st :
  buildable_modules (dm (launch_buildable skip_deps skip_modules st)) = ∅.
Proof. apply launch_buildable_loop_exits. lia. Qed.

End Orchestrator.

(** The scenario of two modules, [B] depending on [A]: [A] is built and
    installed, then marked complete, and only then is [B] dispatched. *)
Example build_A_then_B :
  build_ndk "logs" "dist" false ∅ true demo_log_path demo_read_file
    [module_B; module_A]
    [WorkerRuns 0 true; ResultOf 0; WorkerRuns 0 true; ResultOf 0]
  = ({| dm := {| pending := ∅; in_flight := ∅;
                 completed := {[module_A; module_B]} |};
        workqueue := [];
        trace := [EvAddTask module_A;
                  EvBuild module_A true; EvInstall module_A;
                  EvGetResult true module_A; EvComplete module_A;
                  EvAddTask module_B; EvUiDraw;
                  EvBuild module_B true; EvInstall module_B;
                  EvGetResult true module_B; EvComplete module_B;
                  EvUiDraw; EvUiClear; EvPrint "Build finished"] |},
     Returned ()).
Proof. by_evaluation. Qed.

(** The same two modules with [--skip-deps] and [A] a dependency only:
    [A] is marked complete at once and never built. *)
Example build_B_skipping_A :
  build_ndk "logs" "dist" true {[module_A]} true demo_log_path demo_read_file
    [module_B; module_A] [WorkerRuns 0 true; ResultOf 0]
  = ({| dm := {| pending := ∅; in_flight := ∅;
                 completed := {[module_A; module_B]} |};
        workqueue := [];
        trace := [EvComplete module_A; EvAddTask module_B;
                  EvBuild module_B true; EvInstall module_B;
                  EvGetResult true module_B; EvComplete module_B;
                  EvUiDraw; EvUiClear; EvPrint "Build finished"] |},
     Returned ()).
Proof. by_evaluation. Qed.

Lemma wait_for_build_fails_fast_witness :
  wait_for_build "logs" "dist" false ∅ true demo_log_path demo_read_file
    [ResultOf 0; WorkerRuns 0 true; ResultOf 0] failed_B
  = ({| dm := dm failed_B;
        workqueue := [];
        trace := [EvGetResult false module_B; EvUiClear;
                  EvPrint "Build failed: B";
                  EvPrint "log of logs/B.log";
                  EvAppend "dist/logs/build_error.log"
                    (String (ascii_of_nat 10) "");
                  EvAppend "dist/logs/build_error.log"
                    "log of logs/B.log"] |},
     Raised (SystemExit 1 "")).
Proof.
  apply (wait_for_build_fails_fast "logs" "dist" false ∅ true demo_log_path
           demo_read_file failed_B 0 module_B []).
  reflexivity.
Defined.

End OrchestratorProofs.

(** ** Build configurations and device API levels *)

Module SpecProofs.
Import Spec.

(** *** Strings without a separator *)

Lemma append_nil s : "" +:+ s = s.
Proof. done. Qed.

Lemma append_cons a s1 s2 : String a s1 +:+ s2 = String a (s1 +:+ s2).
Proof. done. Qed.

Ltac unfold_append := rewrite ?append_cons, ?append_nil.

Lemma partition_append s rest :
  contains "-" s = false →
  partition "-" (s +:+ String "-" rest) = (s, "-", rest).
Proof.
  induction s as [|a s IH]; unfold_append; cbn; [done|].
  destruct (Ascii.eqb a "-") eqn:Ha; [done|].
  cbn. intros Hs. by rewrite (IH Hs).
Qed.

Lemma split_no_separator s : contains "-" s = false → split "-" s = [s].
Proof.
  induction s as [|a s IH]; cbn; [done|].
  destruct (Ascii.eqb a "-") eqn:Ha; [done|].
  cbn. intros Hs. by rewrite (IH Hs).
Qed.

Lemma split_append s1 s2 :
  contains "-" s1 = false → contains "-" s2 = false →
  split "-" (s1 +:+ String "-" s2) = [s1; s2].
Proof.
  intros Hs1 Hs2. induction s1 as [|a s1 IH]; unfold_append; cbn in *.
  - by rewrite split_no_separator.
  - destruct (Ascii.eqb a "-") eqn:Ha; [done|].
    cbn in Hs1. by rewrite (IH Hs1).
Qed.

(** *** Decimal numerals *)

Lemma string_of_uint_digits d :
  contains "-" (NilEmpty.string_of_uint d) = false.
Proof. induction d; cbn; done. Qed.

Lemma string_of_uint_head d :
  d ≠ Decimal.Nil →
  ∃ c s, NilEmpty.string_of_uint d = String c s ∧ is_digit c = true.
Proof. destruct d; [done|..]; intros _; cbn; eauto. Qed.

Lemma str_int_nonneg n :
  0 ≤ n →
  contains "-" (str_int n) = false
  ∧ ∃ c s, str_int n = String c s ∧ is_digit c = true.
Proof.
  intros Hn. unfold str_int. destruct n as [|p|p]; [by eauto| |lia].
  cbn. pose proof (Unsigned.to_uint_nonnil p) as Hnil.
  destruct (Pos.to_uint p) eqn:Hp; [done|..];
    (split; [apply (string_of_uint_digits (_ _))
            |apply (string_of_uint_head (_ _)); done]).
Qed.

Lemma int_str_str_int n : int_str (str_int n) = Returned n.
Proof.
  assert (Hplus : ∀ d s, NilZero.string_of_int d ≠ String "+" s).
  { intros [[]|[]] s; done. }
  assert (Hne : ∀ d, NilZero.string_of_int d ≠ "").
  { intros [[]|[]]; done. }
  unfold int_str, str_int.
  destruct (NilZero.string_of_int (Z.to_int n)) as [|c s] eqn:Hs.
  { by destruct (Hne _ Hs). }
  assert (Hd : (match c with
                | "+"%char =>
                    match s with
                    | String c0 s' =>
                        if Ascii.eqb c0 "-" then "-" else String c0 s'
                    | EmptyString => String c s
                    end
                | _ => String c s
                end) = String c s).
  { destruct (decide (c = "+"%char)) as [->|Hc].
    - by destruct (Hplus _ _ Hs).
    - destruct c as [[] [] [] [] [] [] [] []]; done. }
  rewrite Hd, <- Hs, NilZero.isi.
  - by rewrite DecimalZ.of_to.
  - destruct n; cbn; try done. intros [= Hp].
    by apply Unsigned.to_uint_nonnil in Hp.
  - destruct n; cbn; try done. intros [= Hp].
    by apply Unsigned.to_uint_nonnil in Hp.
Qed.

Lemma value_no_separator t : contains "-" (value t) = false.
Proof. by destruct t. Qed.

Lemma CMakeToolchainFile_of_value_value t :
  CMakeToolchainFile_of_value (value t) = Returned t.
Proof. by destruct t. Qed.

(** Parsing what follows the ABI: the API level and the toolchain
    file. *)
Lemma parse_rest {A} n t (k : Z → CMakeToolchainFile → outcome A) :
  0 ≤ n →
  ('(api_str, toolchain_file_str) ←
     unpack2 (split "-" (str_int n +:+ String "-" (value t)));
   api_ ← int_str api_str;
   toolchain_file_ ← CMakeToolchainFile_of_value toolchain_file_str;
   k api_ toolchain_file_) = k n t.
Proof.
  intros Hn. destruct (str_int_nonneg n Hn) as [Hd _].
  rewrite split_append by auto using value_no_separator. cbn.
  rewrite int_str_str_int. cbn.
  by rewrite CMakeToolchainFile_of_value_value.
Qed.

Lemma prefix_nil s : String.prefix "" s = true.
Proof. by destruct s. Qed.

Lemma startswith_digit n s p c :
  0 ≤ n → is_digit c = false →
  startswith (str_int n +:+ s) (String c p) = false.
Proof.
  intros Hn Hc. destruct (str_int_nonneg n Hn) as [_ (d & s' & -> & Hd)].
  unfold startswith. unfold_append. cbn.
  destruct (ascii_dec c d) as [->|]; [congruence|done].
Qed.

(** C10 (amended): for every build configuration whose API level is a
    non-negative integer and whose ABI is an NDK ABI name, parsing the
    string form [abi-api-toolchain] gives the configuration back; this
    covers the two ABI names with a dash, armeabi-v7a and arm64-v8a. *)
Theorem from_string_to_string (c : BuildConfiguration) (n : Z) :
  api c = Some n → 0 ≤ n → ndk_abi_name (abi c) = true →
  from_string (__str__ c) = Returned c.
Proof.
  destruct c as [a m t]. cbn. intros -> Hn Habi.
  unfold __str__, from_string. cbn [String.concat abi api toolchain_file str_api].
  unfold ndk_abi_name in Habi.
  apply orb_true_iff in Habi as [Habi|Hdash];
    [apply orb_true_iff in Habi as [Habi|Habi]|].
  - apply String.eqb_eq in Habi as ->. unfold_append. cbn.
    rewrite prefix_nil. unfold_append.
    by rewrite (parse_rest n t (λ x y, Returned _)).
  - apply String.eqb_eq in Habi as ->. unfold_append. cbn.
    rewrite prefix_nil. unfold_append.
    by rewrite (parse_rest n t (λ x y, Returned _)).
  - apply negb_true_iff in Hdash. unfold_append.
    rewrite partition_append by done.
    rewrite !startswith_digit, !andb_false_r by done.
    by rewrite (parse_rest n t (λ x y, Returned _)).
Qed.

(** C10, as stated, fails for a negative API level: the sign is read as
    one more separator. *)
Lemma from_string_negative_api_counterexample :
  from_string (__str__ {| abi := "x86"; api := Some (-1);
                            toolchain_file := Legacy |})
  = Raised (ValueError "too many values to unpack (expected 2)").
Proof. reflexivity. Qed.

Lemma from_string_to_string_witness :
  from_string (__str__ {| abi := "armeabi-v7a"; api := Some 21;
                            toolchain_file := Default |})
  = Returned {| abi := "armeabi-v7a"; api := Some 21;
                toolchain_file := Default |}.
Proof.
  apply (from_string_to_string _ 21); [reflexivity|lia|reflexivity].
Defined.

(** *** The API level of a device *)

Section DesiredApiLevel.
Variables (min_api : Z) (abi_ : string) (devices : gmap Z (list string)).

(** The loop over a sorted list of keys of [devices]: it returns the
    first supporting key, or raises [RuntimeError] when there is none. *)
Lemma desired_api_level_loop_spec apis :
  StronglySorted Z.le apis →
  (∀ a, a ∈ apis → is_Some (devices !! a)) →
  match _desired_api_level_loop min_api abi_ devices apis with
  | Returned a =>
      a ∈ apis ∧ device_supports min_api abi_ devices a
      ∧ ∀ a', a' ∈ apis → device_supports min_api abi_ devices a' → a ≤ a'
  | Raised e =>
      (∃ msg, e = RuntimeError msg)
      ∧ ∀ a, a ∈ apis → ¬ device_supports min_api abi_ devices a
  | Diverged => False
  end.
Proof.
  induction apis as [|a apis IH]; intros Hsorted Hdom; cbn.
  { split; [eauto|]. by intros a ?%elem_of_nil. }
  apply StronglySorted_inv in Hsorted as [Hsorted Hle].
  assert (Hskip :
    ¬ device_supports min_api abi_ devices a →
    match _desired_api_level_loop min_api abi_ devices apis with
    | Returned a0 =>
        a0 ∈ a :: apis ∧ device_supports min_api abi_ devices a0
        ∧ ∀ a', a' ∈ a :: apis →
                device_supports min_api abi_ devices a' → a0 ≤ a'
    | Raised e =>
        (∃ msg, e = RuntimeError msg)
        ∧ ∀ a0, a0 ∈ a :: apis → ¬ device_supports min_api abi_ devices a0
    | Diverged => False
    end).
  { intros Hno. specialize (IH Hsorted).
    destruct (_desired_api_level_loop min_api abi_ devices apis) as [a0|e|];
      [| |apply IH; intros; apply Hdom; by right].
    - destruct IH as (Hin & Hsup & Hleast); [intros; apply Hdom; by right|].
      split_and!; [by right|done|].
      intros a' [->|Ha']%elem_of_cons Hsup'; [done|by apply Hleast].
    - destruct IH as (Hmsg & Hnone); [intros; apply Hdom; by right|].
      split; [done|].
      intros a0 [->|Ha0]%elem_of_cons; [done|by apply Hnone]. }
  case_bool_decide as Hlt.
  { apply Hskip. intros [? _]. lia. }
  destruct (Hdom a) as [abis Habis]; [by left|]. rewrite Habis.
  case_bool_decide as Habi.
  - split_and!; [by left| |].
    + split; [lia|eauto].
    + intros a' [->|Ha']%elem_of_cons _; [done|].
      by eapply Forall_forall in Hle.
  - apply Hskip. intros (_ & abis' & Habis' & ?). congruence.
Qed.

(** C9: [_desired_api_level] returns the smallest key of [devices] that
    is at least [min_api] and whose ABI list contains the ABI, and it
    raises a [RuntimeError] exactly when there is no such key. *)
Theorem desired_api_level_spec :
  (∀ a, _desired_api_level min_api abi_ devices = Returned a
        ↔ device_supports min_api abi_ devices a
          ∧ ∀ a', device_supports min_api abi_ devices a' → a ≤ a')
  ∧ ((∃ msg, _desired_api_level min_api abi_ devices
             = Raised (RuntimeError msg))
     ↔ ¬ ∃ a, device_supports min_api abi_ devices a)
  ∧ ((∃ a, _desired_api_level min_api abi_ devices = Returned a)
     ∨ ∃ msg, _desired_api_level min_api abi_ devices
              = Raised (RuntimeError msg)).
Proof.
  set (apis := merge_sort Z.le (elements (dom devices))).
  assert (Hin : ∀ a, a ∈ apis ↔ is_Some (devices !! a)).
  { intros a. unfold apis.
    by rewrite merge_sort_Permutation, elem_of_elements, elem_of_dom. }
  assert (Hsup : ∀ a, device_supports min_api abi_ devices a → a ∈ apis).
  { intros a (_ & abis & Habis & _). apply Hin. eauto. }
  pose proof (desired_api_level_loop_spec apis) as Hloop.
  unfold _desired_api_level. fold apis.
  destruct (_desired_api_level_loop min_api abi_ devices apis) as [r|e|].
  - destruct Hloop as (Hr & Hrsup & Hleast);
      [apply StronglySorted_merge_sort; apply _|by intros ? ?%Hin|].
    split_and!.
    + intros a. split.
      * intros [= <-]. split; [done|]. intros a' Ha'. apply Hleast; auto.
      * intros [Ha Hmin]. f_equal.
        apply Z.le_antisymm; [apply Hleast; auto|by apply Hmin].
    + split; [by intros [? ?]|]. intros []. eauto.
    + left. eauto.
  - destruct Hloop as ([msg ->] & Hnone);
      [apply StronglySorted_merge_sort; apply _|by intros ? ?%Hin|].
    split_and!.
    + intros a. split; [done|]. intros [Ha _]. destruct (Hnone a); auto.
    + split; [|eauto]. intros _ [a Ha]. destruct (Hnone a); auto.
    + right. eauto.
  - destruct Hloop;
      [apply StronglySorted_merge_sort; apply _|by intros ? ?%Hin].
Qed.

End DesiredApiLevel.

(** Devices at API levels 21 and 29 for arm64-v8a, 24 for x86 only. *)
Example desired_api_level_example :
  let devices : gmap Z (list string) :=
    {[ 29 := ["arm64-v8a"]; 21 := ["armeabi-v7a"; "arm64-v8a"];
       24 := ["x86"] ]} in
  _desired_api_level 23 "arm64-v8a" devices = Returned 29
  ∧ _desired_api_level 19 "arm64-v8a" devices = Returned 21
  ∧ _desired_api_level 30 "arm64-v8a" devices
    = Raised (RuntimeError
                "Desired API level >= 30 not found for arm64-v8a").
Proof. cbv zeta. split_and!; by_evaluation. Qed.

End SpecProofs.


(** ** The modules selected for a build *)

Module SelectionProofs.
Import Builds Checkbuild Selected Examples.
Local Open Scope nat_scope.

#[local] Instance name_le_dec : RelDecision name_le.
Proof. intros a b. unfold name_le. apply _. Defined.

#[local] Instance name_le_trans : Transitive name_le.
Proof. intros a b c. unfold name_le. apply transitivity. Qed.

#[local] Instance name_le_total : Total name_le.
Proof. intros a b. unfold name_le. apply total, _. Qed.

Section Selection.
Context `{!SetOrder}.
Variable ALL_MODULES : list BuildModule.

Lemma NAMES_TO_MODULES_name n m :
  NAMES_TO_MODULES ALL_MODULES !! n = Some m → name m = n.
Proof.
  unfold NAMES_TO_MODULES.
  assert (Hfold : ∀ (l : list BuildModule) (acc : gmap string BuildModule),
    (∀ k v, acc !! k = Some v → name v = k) →
    ∀ k v, foldl (λ d m, <[name m := m]> d) acc l !! k = Some v → name v = k).
  { induction l as [|x l IH]; intros acc Hacc; cbn; [done|].
    apply IH. intros k v [[<- <-]|[_ ?]]%lookup_insert_Some; eauto. }
  apply Hfold. intros k v. by rewrite lookup_empty.
Qed.

(** A selected module is the registered module of its name. *)
Lemma selected_lookup module_names x :
  selected ALL_MODULES module_names x →
  NAMES_TO_MODULES ALL_MODULES !! name x = Some x.
Proof.
  intros (n & r & _ & Hlook & Hreach).
  destruct (rtc_inv_r _ _ Hreach) as [<-|(y & _ & (d & _ & Hd))].
  - by rewrite (NAMES_TO_MODULES_name _ _ Hlook).
  - by rewrite (NAMES_TO_MODULES_name _ _ Hd).
Qed.

Lemma deps_only_foldl (module_names : list string) (l : list BuildModule)
    (acc : gset BuildModule) x :
  x ∈ foldl (λ acc dep,
               if decide (name dep ∈ module_names) then acc else acc ∪ {[dep]})
            acc l
  ↔ x ∈ acc ∨ (x ∈ l ∧ name x ∉ module_names).
Proof.
  revert acc. induction l as [|d l IH]; intros acc; cbn.
  { rewrite elem_of_nil. naive_solver. }
  rewrite IH, elem_of_cons.
  destruct (decide (name d ∈ module_names)); set_solver.
Qed.

(** One round of the loop of [get_modules_to_build], on a registered
    name. *)
Lemma select_module_spec module_names st n r :
  NAMES_TO_MODULES ALL_MODULES !! n = Some r →
  ∃ st', select_module ALL_MODULES module_names st n = Returned st'
    ∧ (∀ x, x ∈ modules st' ↔
         x ∈ modules st ∨ rtc (depends_on ALL_MODULES) r x)
    ∧ (∀ x, x ∈ deps_only st' ↔
         x ∈ deps_only st
         ∨ (x ≠ r ∧ rtc (depends_on ALL_MODULES) r x
            ∧ name x ∉ module_names))
    ∧ (∀ u, u ∈ unknown_modules st' ↔
         u ∈ unknown_modules st
         ∨ (NAMES_TO_MODULES ALL_MODULES !! u = None
            ∧ ∃ x, rtc (depends_on ALL_MODULES) r x ∧ u ∈ deps x)).
Proof.
  intros Hlook.
  unfold select_module, dict_getitem, get_transitive_module_deps.
  rewrite Hlook. cbn -[get_transitive_module_deps_fuel].
  destruct (ClosureProofs.get_transitive_module_deps_fuel_spec _ ALL_MODULES r
              (S (length ALL_MODULES)))
    as (deps_ & unknown_deps & -> & Hdeps & Hunknown); [lia|].
  cbn. eexists. split; [done|]. cbn. split_and!.
  - intros x. rewrite !elem_of_union, elem_of_singleton, Hdeps.
    destruct (decide (x = r)) as [->|]; naive_solver.
  - intros x. rewrite deps_only_foldl, set_iter_perm, elem_of_elements, Hdeps.
    naive_solver.
  - intros u. destruct (decide _) as [Hnone|_]; [congruence|].
    by rewrite elem_of_union, Hunknown.
Qed.

(** The whole loop, on registered names. *)
Lemma select_modules_spec module_names names st :
  (∀ n, n ∈ names → is_Some (NAMES_TO_MODULES ALL_MODULES !! n)) →
  ∃ st', for_each (select_module ALL_MODULES module_names) st names
         = Returned st'
    ∧ (∀ x, x ∈ modules st' ↔
         x ∈ modules st ∨ selected ALL_MODULES names x)
    ∧ (∀ x, x ∈ deps_only st' ↔
         x ∈ deps_only st
         ∨ ∃ n r, n ∈ names ∧ NAMES_TO_MODULES ALL_MODULES !! n = Some r
                  ∧ x ≠ r ∧ rtc (depends_on ALL_MODULES) r x
                  ∧ name x ∉ module_names)
    ∧ (∀ u, u ∈ unknown_modules st' ↔
         u ∈ unknown_modules st ∨ unknown_dependency ALL_MODULES names u).
Proof.
  unfold unknown_dependency, selected.
  revert st. induction names as [|n names IH]; intros st Hknown; cbn.
  { eexists. split; [done|]. setoid_rewrite elem_of_nil. naive_solver. }
  destruct (Hknown n) as [r Hlook]; [by left|].
  destruct (select_module_spec module_names st n r Hlook)
    as (st1 & -> & Hm1 & Hd1 & Hu1). cbn.
  destruct (IH st1) as (st' & -> & Hm & Hd & Hu).
  { intros; apply Hknown; by right. }
  eexists. split; [done|]. setoid_rewrite elem_of_cons. split_and!.
  - intros x. rewrite Hm, Hm1. split.
    + intros [[?|?]|(n0 & r0 & ? & ? & ?)]; [auto|..].
      * right. exists n, r. auto.
      * right. exists n0, r0. auto.
    + intros [?|(n0 & r0 & [->|?] & Hl & ?)]; [auto|..].
      * rewrite Hlook in Hl. injection Hl as <-. auto.
      * right. exists n0, r0. auto.
  - intros x. rewrite Hd, Hd1. split.
    + intros [[?|(? & ? & ?)]|(n0 & r0 & ? & ? & ?)]; [auto|..].
      * right. exists n, r. auto.
      * right. exists n0, r0. auto.
    + intros [?|(n0 & r0 & [->|?] & Hl & ? & ? & ?)]; [auto|..].
      * rewrite Hlook in Hl. injection Hl as <-. auto.
      * right. exists n0, r0. auto.
  - intros u. rewrite Hu, Hu1. split.
    + intros [[?|(? & y & ? & ?)]|(? & y & (n0 & r0 & ? & ? & ?) & ?)];
        [auto|..].
      * right. split; [done|]. exists y. split; [|done]. exists n, r. auto.
      * right. split; [done|]. exists y. split; [|done]. exists n0, r0. auto.
    + intros [?|(? & y & (n0 & r0 & [->|?] & Hl & ?) & ?)]; [auto|..].
      * rewrite Hlook in Hl. injection Hl as <-. left. right. eauto.
      * right. split; [done|]. exists y. split; [|done]. exists n0, r0. auto.
Qed.

(** What [get_modules_to_build] answers when every requested name is
    registered. *)
Lemma get_modules_to_build_spec module_names :
  (∀ n, n ∈ module_names → is_Some (NAMES_TO_MODULES ALL_MODULES !! n)) →
  ∃ st,
    (∀ x, x ∈ modules st ↔ selected ALL_MODULES module_names x)
    ∧ (∀ x, x ∈ deps_only st ↔
         selected ALL_MODULES module_names x ∧ name x ∉ module_names)
    ∧ (∀ u, u ∈ unknown_modules st ↔
         unknown_dependency ALL_MODULES module_names u)
    ∧ get_modules_to_build ALL_MODULES module_names =
        if decide (unknown_modules st = ∅)
        then Returned (merge_sort name_le (set_iter (modules st)),
                       deps_only st)
        else Raised (SystemExit 1
               ("Unknown modules: " +:+
                join ", " (merge_sort String.le
                             (set_iter (unknown_modules st))))).
Proof.
  intros Hknown. unfold get_modules_to_build.
  destruct (select_modules_spec module_names module_names
              {| unknown_modules := ∅; modules := ∅; deps_only := ∅ |} Hknown)
    as (st & -> & Hm & Hd & Hu). cbn in *.
  exists st. split_and!.
  - intros x. rewrite Hm. set_solver.
  - intros x. rewrite Hd. split.
    + intros [?|(n & r & ? & ? & ? & ? & ?)]; [set_solver|].
      split; [by exists n, r|done].
    + intros [(n & r & Hn & Hlook & Hreach) Hname]. right.
      exists n, r. split_and!; [done..| |done|done].
      intros ->. apply Hname. by rewrite (NAMES_TO_MODULES_name _ _ Hlook).
  - intros u. rewrite Hu. set_solver.
  - done.
Qed.

(** In a registry where every dependency named is registered, no
    selection meets an unknown dependency. *)
Lemma registry_closed_no_unknown_dependency module_names u :
  registry_closed ALL_MODULES →
  ¬ unknown_dependency ALL_MODULES module_names u.
Proof.
  intros Hclosed (Hnone & x & Hsel & Hu).
  apply selected_lookup, ClosureProofs.NAMES_TO_MODULES_registered in Hsel.
  apply elem_of_list_to_set in Hsel.
  unfold registry_closed in Hclosed. rewrite Forall_forall in Hclosed.
  destruct (Hclosed x Hsel u Hu) as [? Hsome]. congruence.
Qed.

(** X1: when every requested name is registered but a selected module
    names a dependency that is not, [get_modules_to_build] exits with
    status 1 and one message that lists every such name once, in sorted
    order. *)
Theorem get_modules_to_build_reports_unknown_dependencies module_names :
  (∀ n, n ∈ module_names → is_Some (NAMES_TO_MODULES ALL_MODULES !! n)) →
  (∃ u, unknown_dependency ALL_MODULES module_names u) →
  ∃ l, get_modules_to_build ALL_MODULES module_names
       = Raised (SystemExit 1 ("Unknown modules: " +:+ join ", " l))
       ∧ StronglySorted String.le l
       ∧ NoDup l
       ∧ ∀ u, u ∈ l ↔ unknown_dependency ALL_MODULES module_names u.
Proof.
  intros Hknown [u0 Hu0].
  destruct (get_modules_to_build_spec module_names Hknown)
    as (st & _ & _ & Hu & ->).
  destruct (decide _) as [Hempty|_].
  { apply Hu in Hu0. set_solver. }
  eexists. split; [done|]. split_and!.
  - apply StronglySorted_merge_sort; apply _.
  - rewrite merge_sort_Permutation, set_iter_perm. apply NoDup_elements.
  - intros u. by rewrite merge_sort_Permutation, set_iter_perm,
      elem_of_elements.
Qed.

(** X2: when every requested name is registered and every dependency
    met is too, [get_modules_to_build] returns the requested modules
    and everything they depend on, directly or not, as a list sorted
    by name in which no name occurs twice; the second component holds
    those of them whose name was not requested. *)
Theorem get_modules_to_build_selects module_names :
  (∀ n, n ∈ module_names → is_Some (NAMES_TO_MODULES ALL_MODULES !! n)) →
  (∀ u, ¬ unknown_dependency ALL_MODULES module_names u) →
  ∃ l d, get_modules_to_build ALL_MODULES module_names = Returned (l, d)
       ∧ StronglySorted name_le l
       ∧ NoDup (name <$> l)
       ∧ (∀ x, x ∈ l ↔ selected ALL_MODULES module_names x)
       ∧ (∀ x, x ∈ d ↔
            selected ALL_MODULES module_names x ∧ name x ∉ module_names).
Proof.
  intros Hknown Hnone.
  destruct (get_modules_to_build_spec module_names Hknown)
    as (st & Hm & Hd & Hu & ->).
  destruct (decide _) as [_|Hne].
  2:{ destruct Hne. apply set_eq. intros u. rewrite Hu. set_solver. }
  assert (Hin : ∀ x, x ∈ merge_sort name_le (set_iter (modules st))
                     ↔ selected ALL_MODULES module_names x).
  { intros x. by rewrite merge_sort_Permutation, set_iter_perm,
      elem_of_elements. }
  eexists _, _. split; [done|]. split_and!; [| |done|done].
  - apply StronglySorted_merge_sort; apply _.
  - apply NoDup_fmap_2_strong.
    + intros x y Hx%Hin%selected_lookup Hy%Hin%selected_lookup Heq.
      rewrite Heq in Hx. congruence.
    + rewrite merge_sort_Permutation, set_iter_perm. apply NoDup_elements.
Qed.

End Selection.

Lemma get_modules_to_build_reports_unknown_dependencies_witness :
  ∃ l, get_modules_to_build [module_X] ["X"]
       = Raised (SystemExit 1 ("Unknown modules: " +:+ join ", " l))
       ∧ StronglySorted String.le l
       ∧ NoDup l
       ∧ ∀ u, u ∈ l ↔ unknown_dependency [module_X] ["X"] u.
Proof.
  apply (get_modules_to_build_reports_unknown_dependencies [module_X] ["X"]).
  - intros n ->%list_elem_of_singleton. by_evaluation.
  - exists "Y". split; [by_evaluation|]. exists module_X. split.
    + exists "X", module_X. split_and!; [by_evaluation..|constructor].
    + by_evaluation.
Defined.

Lemma get_modules_to_build_selects_witness :
  ∃ l d, get_modules_to_build NDK_MODULES ["ndk-build"; "clang"]
         = Returned (l, d)
       ∧ StronglySorted name_le l
       ∧ NoDup (name <$> l)
       ∧ (∀ x, x ∈ l ↔ selected NDK_MODULES ["ndk-build"; "clang"] x)
       ∧ (∀ x, x ∈ d ↔
            selected NDK_MODULES ["ndk-build"; "clang"] x
            ∧ name x ∉ ["ndk-build"; "clang"]).
Proof.
  apply (get_modules_to_build_selects NDK_MODULES ["ndk-build"; "clang"]).
  - apply Forall_forall. by_evaluation.
  - intros u. apply registry_closed_no_unknown_dependency. by_evaluation.
Defined.

End SelectionProofs.

(** ** The progress of the build loop *)

Module ProgressProofs.
Import Builds Deps Workqueue Checkbuild Progress Examples.
Local Open Scope nat_scope.

Lemma elem_of_dispatched tr m : m ∈ dispatched tr ↔ EvAddTask m ∈ tr.
Proof.
  unfold dispatched. rewrite list_elem_of_omap. split.
  - intros (ev & Hev & Heq). by destruct ev; simplify_eq.
  - intros Hin. by exists (EvAddTask m).
Qed.

Lemma dispatched_app tr evs :
  dispatched (tr ++ evs) = dispatched tr ++ dispatched evs.
Proof. apply omap_app. Qed.

Lemma failure_retrieved_app tr evs :
  failure_retrieved (tr ++ evs)
  ↔ failure_retrieved tr ∨ failure_retrieved evs.
Proof.
  unfold failure_retrieved. setoid_rewrite elem_of_app. naive_solver.
Qed.

Lemma no_failure_app tr evs :
  ¬ failure_retrieved tr →
  Forall (λ ev, ∀ m, ev ≠ EvGetResult false m) evs →
  ¬ failure_retrieved (tr ++ evs).
Proof.
  intros Htr Hevs [[m Hm]|[m Hm]]%failure_retrieved_app; [by apply Htr; exists m|].
  rewrite Forall_forall in Hevs. by apply (Hevs _ Hm m).
Qed.

Lemma elem_of_delete_ne {A} (l : list A) i x y :
  x ∈ l → l !! i = Some y → x ≠ y → x ∈ delete i l.
Proof.
  revert i. induction l as [|z l IH]; intros [|i] Hx Hi Hne;
    simplify_eq/=; set_solver.
Qed.

Section Orchestrator.
Context `{!SetOrder}.
Variables (log_dir dist_dir : string).
Variables (skip_deps : bool) (skip_modules : gset BuildModule).
Variable smart_console : bool.
Variable log_path : BuildModule → string → string.
Variable read_file : string → string.
Variable modules_ : list BuildModule.

Lemma tracked_init :
  tracked modules_ []
    {| dm := Deps.new modules_; workqueue := []; trace := [] |}.
Proof.
  unfold tracked; cbn. split_and!; try set_solver. constructor.
Qed.

(** Events other than dispatches, with the same modules queued, leave
    the bookkeeping as it is. *)
Lemma tracked_append rest st evs q :
  dispatched evs = [] →
  queued q = queued (workqueue st) →
  tracked modules_ rest st →
  tracked modules_ rest
    {| dm := dm st; workqueue := q; trace := trace st ++ evs |}.
Proof.
  intros Hevs Hq (Hnd & HM & Hpend & Hdisp & Hfl & Hpart).
  unfold tracked; cbn [dm workqueue trace].
  rewrite dispatched_app, Hevs, app_nil_r, Hq.
  setoid_rewrite failure_retrieved_app. setoid_rewrite elem_of_app.
  split_and!; [done..| | |done].
  - intros m Hm. destruct (Hdisp m Hm) as [?|[?|?]]; auto.
  - intros m Hm. destruct (Hfl m Hm) as [?|[?|?]]; auto.
Qed.

Lemma tracked_emit st evs :
  dispatched evs = [] →
  tracked modules_ [] st → tracked modules_ [] (emit evs st).
Proof. intros Hevs Hst. by apply tracked_append. Qed.

Lemma launch_module_tracked st module rest :
  tracked modules_ (module :: rest) st →
  tracked modules_ rest (launch_module skip_deps skip_modules st module).
Proof.
  intros (Hnd & HM & Hpend & Hdisp & Hfl & Hpart). unfold launch_module.
  pose proof Hnd as (Hnd1 & Hnd2 & [Hnd3 Hnd4]%NoDup_cons)%NoDup_app.
  destruct (skip_deps && _); unfold tracked; cbn;
    rewrite dispatched_app; cbn; rewrite ?app_nil_r;
    setoid_rewrite failure_retrieved_app; setoid_rewrite elem_of_app.
  - split_and!.
    + apply NoDup_app. split_and!; [done| |done].
      intros x Hx Hin. apply (Hnd2 x Hx). by right.
    + intros m Hm. apply HM. rewrite elem_of_cons. naive_solver.
    + intros m Hm. apply Hpend. rewrite elem_of_cons. naive_solver.
    + intros m Hm. destruct (Hdisp m Hm) as [?|[?|?]]; auto.
    + intros m [Hm Hne]%elem_of_difference.
      rewrite elem_of_singleton in Hne.
      destruct (Hfl m Hm) as [?|[[?|?]%elem_of_cons|?]]; auto. done.
    + intros m Hm. rewrite elem_of_difference, elem_of_union, elem_of_singleton.
      destruct (Hpart m Hm) as [?|[?|?]]; [auto| |auto].
      destruct (decide (m = module)); auto.
  - unfold add_task, queued. setoid_rewrite fmap_app. cbn.
    setoid_rewrite elem_of_app. setoid_rewrite list_elem_of_singleton.
    split_and!.
    + by rewrite <- app_assoc.
    + intros m [[?| ->]|[?|?]]; apply HM; rewrite ?elem_of_cons; auto.
    + intros m [[?| ->]|?]; apply Hpend; rewrite ?elem_of_cons; auto.
    + intros m [Hm| ->]; [|auto].
      destruct (Hdisp m Hm) as [?|[?|?]]; auto.
    + intros m Hm.
      destruct (Hfl m Hm) as [?|[[->|?]%elem_of_cons|?]]; auto.
    + done.
Qed.

Lemma foldl_launch_module_tracked rest st :
  tracked modules_ rest st →
  tracked modules_ []
    (foldl (launch_module skip_deps skip_modules) st rest).
Proof.
  revert st. induction rest as [|module rest IH]; intros st Hst; cbn; [done|].
  by apply IH, launch_module_tracked.
Qed.

Lemma launch_buildable_loop_tracked fuel st :
  tracked modules_ [] st →
  tracked modules_ []
    (launch_buildable_loop skip_deps skip_modules fuel st).
Proof.
  revert st. induction fuel as [|fuel IH]; intros st Hst; cbn; [done|].
  case_decide as Hempty; [done|].
  apply IH, foldl_launch_module_tracked.
  destruct Hst as (Hnd & HM & Hpend & Hdisp & Hfl & Hpart).
  rewrite app_nil_r in Hnd.
  assert (Hiter : ∀ m, m ∈ set_iter (buildable_modules (dm st))
                       ↔ m ∈ buildable_modules (dm st)).
  { intros m. by rewrite set_iter_perm, elem_of_elements. }
  assert (Hsub : ∀ m, m ∈ buildable_modules (dm st) → m ∈ pending (dm st)).
  { intros m Hm. by apply elem_of_filter in Hm as [_ ?]. }
  unfold tracked; cbn. setoid_rewrite Hiter. split_and!.
  - apply NoDup_app. split_and!; [done| |].
    + intros m Hm ?%Hiter%Hsub. apply (Hpend m); auto.
    + rewrite set_iter_perm. apply NoDup_elements.
  - intros m [?|[?%elem_of_difference|?%Hsub]]; apply HM; naive_solver.
  - intros m [Hm|Hm] Hin%elem_of_difference; [|naive_solver].
    apply (Hpend m); naive_solver.
  - done.
  - intros m [Hm|Hm]%elem_of_union; [|auto].
    destruct (Hfl m Hm) as [?|[?%elem_of_nil|?]]; auto. done.
  - intros m Hm. rewrite elem_of_difference, elem_of_union.
    destruct (Hpart m Hm) as [?|[?|?]]; [|auto..].
    destruct (decide (m ∈ buildable_modules (dm st))); auto.
Qed.

Lemma launch_buildable_tracked st :
  tracked modules_ [] st →
  tracked modules_ [] (launch_buildable skip_deps skip_modules st).
Proof. apply launch_buildable_loop_tracked. Qed.

Lemma worker_runs_tracked i build_ok st :
  tracked modules_ [] st → tracked modules_ [] (worker_runs i build_ok st).
Proof.
  intros Hst. unfold worker_runs.
  destruct (workqueue st !! i) as [[module [result|]]|] eqn:Hi; [done| |done].
  unfold launch_build.
  destruct build_ok; cbn; (apply tracked_append; [done| |done]);
    unfold queued; rewrite list_fmap_insert; cbn; apply list_insert_id;
    by rewrite list_lookup_fmap, Hi.
Qed.

(** Retrieving a result. *)
Lemma get_result_tracked st i result module q :
  tracked modules_ [] st →
  get_result i (workqueue st) = Some (result, module, q) →
  (∀ m, m ∈ queued (workqueue st) → m ≠ module → m ∈ queued q)
  ∧ (∀ m, m ∈ queued q → m ∈ queued (workqueue st)).
Proof.
  intros _ Hget. unfold get_result in Hget.
  destruct (workqueue st !! i) as [[m' [r|]]|] eqn:Hi; simplify_eq.
  unfold queued. split.
  - intros m Hm Hne. rewrite list_fmap_delete.
    eapply elem_of_delete_ne; [done| |done].
    by rewrite list_lookup_fmap, Hi.
  - intros m (t & -> & Ht)%list_elem_of_fmap.
    apply list_elem_of_fmap. exists t. split; [done|].
    by eapply list_elem_of_delete_inv.
Qed.

Lemma failed_result_tracked st module q evs :
  tracked modules_ [] st →
  dispatched evs = [] →
  tracked modules_ []
    {| dm := dm st; workqueue := q;
       trace := trace st ++ EvGetResult false module :: evs |}.
Proof.
  intros (Hnd & HM & Hpend & Hdisp & Hfl & Hpart) Hevs.
  assert (failure_retrieved (trace st ++ EvGetResult false module :: evs))
    as Hfail.
  { exists module. rewrite elem_of_app. right. by left. }
  unfold tracked; cbn [dm workqueue trace]. rewrite dispatched_app.
  change (dispatched (EvGetResult false module :: evs)) with (dispatched evs).
  rewrite Hevs, !app_nil_r. rewrite app_nil_r in Hnd.
  split_and!; [done..| | |done].
  - intros m _. right. by right.
  - intros m _. right. by right.
Qed.

Lemma completed_result_tracked st i module q evs :
  tracked modules_ [] st →
  get_result i (workqueue st) = Some (true, module, q) →
  dispatched evs = [] →
  tracked modules_ []
    {| dm := complete module (dm st); workqueue := q;
       trace := (trace st ++ evs) ++ [EvComplete module] |}.
Proof.
  intros Hst Hget Hevs.
  destruct (get_result_tracked st i true module q Hst Hget) as [Hq _].
  destruct Hst as (Hnd & HM & Hpend & Hdisp & Hfl & Hpart).
  rewrite app_nil_r in Hnd.
  unfold tracked; cbn [dm workqueue trace in_flight pending completed complete].
  rewrite !dispatched_app, Hevs. cbn [dispatched omap list_omap].
  rewrite !app_nil_r. setoid_rewrite failure_retrieved_app.
  setoid_rewrite failure_retrieved_app. setoid_rewrite elem_of_app.
  setoid_rewrite elem_of_app.
  split_and!; [done..| | |].
  - intros m Hm. destruct (decide (m = module)) as [->|Hne].
    { right. left. right. by left. }
    destruct (Hdisp m Hm) as [?|[?|?]]; auto 6.
  - intros m [Hm Hne]%elem_of_difference.
    rewrite elem_of_singleton in Hne.
    destruct (Hfl m Hm) as [?|[?|?]]; auto 6.
  - intros m Hm. rewrite elem_of_difference, elem_of_union, elem_of_singleton.
    destruct (Hpart m Hm) as [?|[?|?]]; [auto| |auto].
    destruct (decide (m = module)); auto.
Qed.

Lemma wait_for_build_tracked schedule st :
  tracked modules_ [] st →
  tracked modules_ []
    (wait_for_build log_dir dist_dir skip_deps skip_modules smart_console
       log_path read_file schedule st).1.
Proof.
  revert st.
  induction schedule as [|[i build_ok|i] schedule IH]; intros st Hst;
    cbn -[launch_buildable];
    (destruct (finished (workqueue st)); [by apply tracked_emit|]).
  - done.
  - by apply IH, worker_runs_tracked.
  - destruct (get_result i (workqueue st)) as [[[result module] q]|] eqn:Hget;
      [|by apply IH].
    destruct result; cbn -[launch_buildable].
    + apply IH, tracked_emit; [done|]. apply launch_buildable_tracked.
      destruct smart_console; cbn.
      * by apply (completed_result_tracked st i module q
                    [EvGetResult true module]).
      * rewrite <- (app_assoc (trace st)).
        by apply (completed_result_tracked st i module q).
    + unfold emit; cbn. rewrite <- app_assoc.
      by apply failed_result_tracked.
Qed.

(** *** How the loop ends *)

Lemma launch_module_no_failure st module :
  ¬ failure_retrieved (trace st) →
  ¬ failure_retrieved
      (trace (launch_module skip_deps skip_modules st module)).
Proof.
  intros Hst. unfold launch_module.
  destruct (skip_deps && _); cbn; (apply no_failure_app; [done|]);
    by repeat constructor.
Qed.

Lemma launch_buildable_no_failure st :
  ¬ failure_retrieved (trace st) →
  ¬ failure_retrieved (trace (launch_buildable skip_deps skip_modules st)).
Proof.
  unfold launch_buildable. generalize (S (size (pending (dm st)))).
  intros fuel. revert st. induction fuel as [|fuel IH]; intros st Hst; cbn;
    [done|].
  case_decide; [done|]. apply IH.
  generalize (set_iter (buildable_modules (dm st))). intros l.
  assert (Hfold : ∀ st0, ¬ failure_retrieved (trace st0) →
    ¬ failure_retrieved
        (trace (foldl (launch_module skip_deps skip_modules) st0 l))).
  { induction l as [|m l IHl]; intros st0 Hst0; cbn; [done|].
    by apply IHl, launch_module_no_failure. }
  by apply Hfold.
Qed.

Lemma worker_runs_no_failure i build_ok st :
  ¬ failure_retrieved (trace st) →
  ¬ failure_retrieved (trace (worker_runs i build_ok st)).
Proof.
  intros Hst. unfold worker_runs.
  destruct (workqueue st !! i) as [[module [result|]]|]; [done| |done].
  unfold launch_build.
  destruct build_ok; cbn; (apply no_failure_app; [done|]);
    by repeat constructor.
Qed.

Lemma worker_runs_dm i build_ok st : dm (worker_runs i build_ok st) = dm st.
Proof.
  unfold worker_runs.
  destruct (workqueue st !! i) as [[module [result|]]|]; [done| |done].
  unfold launch_build. by destruct build_ok.
Qed.

(** [wait_for_build] ends in one of three ways. *)
Lemma wait_for_build_outcome schedule st :
  ¬ failure_retrieved (trace st) →
  buildable_modules (dm st) = ∅ →
  let res := wait_for_build log_dir dist_dir skip_deps skip_modules
               smart_console log_path read_file schedule st in
  buildable_modules (dm res.1) = ∅
  ∧ match res.2 with
    | Returned _ => workqueue res.1 = [] ∧ ¬ failure_retrieved (trace res.1)
    | Raised e => e = SystemExit 1 "" ∧ failure_retrieved (trace res.1)
    | Diverged => workqueue res.1 ≠ [] ∧ ¬ failure_retrieved (trace res.1)
    end.
Proof.
  revert st.
  induction schedule as [|[i build_ok|i] schedule IH]; intros st Hst Hb;
    cbn -[launch_buildable]; unfold finished;
    (case_bool_decide as Hq;
     [cbn; split_and!; [done..|];
      apply no_failure_app; [done|by repeat constructor]|]).
  - done.
  - apply IH; [by apply worker_runs_no_failure|by rewrite worker_runs_dm].
  - destruct (get_result i (workqueue st)) as [[[result module] q]|] eqn:Hget;
      [|by apply IH].
    destruct result; cbn -[launch_buildable].
    + apply IH; cbn -[launch_buildable].
      * apply no_failure_app; [|by repeat constructor].
        apply launch_buildable_no_failure.
        destruct smart_console; cbn;
          repeat (apply no_failure_app; [|by repeat constructor]); done.
      * apply (OrchestratorProofs.launch_buildable_exits dist_dir skip_deps
                 skip_modules log_path read_file).
    + split_and!; [done..|]. exists module.
      rewrite !elem_of_app. left. right. by left.
Qed.

(** With the work queue empty and nothing buildable, every module of a
    list whose dependencies are listed and free of cycles is
    completed. *)
Lemma settled_completed rank st :
  dependencies_listed modules_ → ranked rank modules_ →
  tracked modules_ [] st →
  workqueue st = [] → ¬ failure_retrieved (trace st) →
  buildable_modules (dm st) = ∅ →
  ∀ m, m ∈ modules_ → m ∈ completed (dm st).
Proof.
  intros Hlisted Hranked (_ & _ & _ & _ & Hfl & Hpart) Hq Hfail Hb.
  assert (Hk : ∀ k m, rank m < k → m ∈ modules_ → m ∈ completed (dm st)).
  { induction k as [|k IH]; intros m Hrank Hm; [lia|].
    destruct (Hpart m Hm) as [Hpend|[Hin|?]]; [| |done].
    - assert (m ∈ buildable_modules (dm st)) as Hin; [|set_solver].
      apply elem_of_filter. split; [|done].
      intros n Hn. destruct (Hlisted m n Hm Hn) as (d & Hd & <-).
      apply elem_of_map. exists d. split; [done|].
      apply IH; [|done]. specialize (Hranked m d Hm Hd Hn). lia.
    - destruct (Hfl m Hin) as [Hin'|[?%elem_of_nil|?]]; [|done..].
      rewrite Hq in Hin'. by apply elem_of_nil in Hin'. }
  intros m. apply (Hk (S (rank m))). lia.
Qed.

(** The state in which the loop of [build_ndk] is left, and what
    [build_ndk] makes of it. *)
Lemma build_ndk_loop schedule :
  let res := build_ndk log_dir dist_dir skip_deps skip_modules smart_console
               log_path read_file modules_ schedule in
  ∃ st,
    tracked modules_ [] st
    ∧ consistent skip_deps skip_modules st
    ∧ buildable_modules (dm st) = ∅
    ∧ match res.2 with
      | Returned _ => workqueue st = [] ∧ ¬ failure_retrieved (trace st)
      | Raised e => e = SystemExit 1 "" ∧ failure_retrieved (trace st)
      | Diverged => workqueue st ≠ [] ∧ ¬ failure_retrieved (trace st)
      end
    ∧ trace res.1 = trace st
    ∧ workqueue res.1 = workqueue st
    ∧ completed (dm res.1) = completed (dm st).
Proof.
  cbv zeta. unfold build_ndk.
  pose proof (tracked_init) as Ht0.
  pose proof (OrchestratorProofs.consistent_init skip_deps skip_modules
                modules_) as Hc0.
  assert (¬ failure_retrieved
              (trace {| dm := Deps.new modules_; workqueue := [];
                        trace := [] |})) as Hf0.
  { intros [m Hm]. by apply elem_of_nil in Hm. }
  apply launch_buildable_tracked in Ht0.
  apply (OrchestratorProofs.launch_buildable_consistent dist_dir skip_deps
           skip_modules log_path read_file) in Hc0.
  apply launch_buildable_no_failure in Hf0.
  pose proof (OrchestratorProofs.launch_buildable_exits dist_dir skip_deps
                skip_modules log_path read_file
                {| dm := Deps.new modules_; workqueue := []; trace := [] |})
    as Hb0.
  revert Ht0 Hc0 Hf0 Hb0.
  generalize (launch_buildable skip_deps skip_modules
                {| dm := Deps.new modules_; workqueue := []; trace := [] |}).
  intros st0 Ht0 Hc0 Hf0 Hb0.
  pose proof (wait_for_build_tracked schedule st0 Ht0) as Ht.
  pose proof (OrchestratorProofs.wait_for_build_consistent log_dir dist_dir
                skip_deps skip_modules smart_console log_path read_file
                schedule st0 Hc0) as Hc.
  destruct (wait_for_build_outcome schedule st0 Hf0 Hb0) as [Hb Hr].
  destruct (wait_for_build _ _ _ _ _ _ _ _ _) as [st r]. cbn [fst snd] in *.
  exists st. destruct r as [[]| |]; cbn.
  - rewrite Hb. by rewrite decide_True.
  - done.
  - done.
Qed.


(** X4: in every run of the build loop no module is handed to the work
    queue twice, and the modules handed to it are modules of the list
    given to [build_ndk] that are not skipped. *)
Theorem build_ndk_dispatches_once schedule :
  let tr := trace (build_ndk log_dir dist_dir skip_deps skip_modules
                     smart_console log_path read_file modules_ schedule).1 in
  NoDup (dispatched tr)
  ∧ ∀ m, m ∈ dispatched tr →
      m ∈ modules_ ∧ ¬ skipped skip_deps skip_modules m.
Proof.
  cbv zeta.
  destruct (build_ndk_loop schedule)
    as (st & (Hnd & HM & _) & (Htr & _) & _ & _ & -> & _).
  rewrite app_nil_r in Hnd. split; [done|]. intros m Hm.
  split; [apply HM; by left|].
  apply elem_of_dispatched, list_elem_of_split in Hm
    as (before & after & Heq).
  by destruct (Htr _ _ _ Heq) as [Hnot _].
Qed.

(** X5: when the build loop returns, every module that was handed to
    the work queue has been installed and marked complete. *)
Theorem build_ndk_returned_installed schedule :
  let res := build_ndk log_dir dist_dir skip_deps skip_modules smart_console
               log_path read_file modules_ schedule in
  res.2 = Returned () →
  ∀ m, m ∈ dispatched (trace res.1) →
    EvInstall m ∈ trace res.1 ∧ EvComplete m ∈ trace res.1.
Proof.
  cbv zeta.
  destruct (build_ndk_loop schedule)
    as (st & (_ & _ & _ & Hdisp & _) & (Htr & _) & _ & Hr & -> & _).
  intros Hret m Hm. rewrite Hret in Hr. destruct Hr as [Hq Hfail].
  assert (EvComplete m ∈ trace st) as Hc.
  { destruct (Hdisp m Hm) as [Hin|[?|?]]; [|done..].
    rewrite Hq in Hin. by apply elem_of_nil in Hin. }
  split; [|done].
  apply elem_of_dispatched, list_elem_of_split in Hm as (b1 & a1 & Heq1).
  destruct (Htr _ _ _ Heq1) as [Hnot _].
  apply list_elem_of_split in Hc as (b2 & a2 & Heq2).
  destruct (Htr _ _ _ Heq2) as [?|Hin]; [done|].
  rewrite Heq2, elem_of_app. by left.
Qed.

(** X6: when the dependencies named in the list of modules are modules
    of the list and form no cycle, and the build loop returns, every
    module of the list has been marked complete: the skipped ones
    without being installed, the others after being handed to the work
    queue and installed. *)
Theorem build_ndk_returned_completes rank schedule :
  let res := build_ndk log_dir dist_dir skip_deps skip_modules smart_console
               log_path read_file modules_ schedule in
  dependencies_listed modules_ → ranked rank modules_ →
  res.2 = Returned () →
  ∀ m, m ∈ modules_ →
    EvComplete m ∈ trace res.1
    ∧ ((skipped skip_deps skip_modules m ∧ EvInstall m ∉ trace res.1)
       ∨ (m ∈ dispatched (trace res.1) ∧ EvInstall m ∈ trace res.1)).
Proof.
  cbv zeta.
  destruct (build_ndk_loop schedule)
    as (st & Ht & (Htr & _ & Hcompl) & Hb & Hr & -> & _).
  intros Hlisted Hranked Hret m Hm. rewrite Hret in Hr.
  destruct Hr as [Hq Hfail].
  pose proof (settled_completed rank st Hlisted Hranked Ht Hq Hfail Hb m Hm)
    as Hc%Hcompl.
  split; [done|].
  apply list_elem_of_split in Hc as (b2 & a2 & Heq2).
  destruct (Htr _ _ _ Heq2) as [Hskip|Hin].
  - left. split; [done|].
    by apply (OrchestratorProofs.skipped_not_installed skip_deps
                skip_modules).
  - right. apply list_elem_of_split in Hin as (b1 & a1 & Heq1).
    rewrite Heq1, <- app_assoc in Heq2.
    pose proof (Htr _ _ _ Heq2) as Hadd. cbn in Hadd.
    split.
    + apply elem_of_dispatched. rewrite Heq2, elem_of_app. by left.
    + rewrite Heq2, elem_of_app. right. by left.
Qed.

End Orchestrator.
Lemma build_ndk_returned_installed_witness :
  EvInstall module_B
    ∈ trace (build_ndk "logs" "dist" false ∅ true demo_log_path
               demo_read_file [module_B; module_A]
               [WorkerRuns 0 true; ResultOf 0;
                WorkerRuns 0 true; ResultOf 0]).1
  ∧ EvComplete module_B
      ∈ trace (build_ndk "logs" "dist" false ∅ true demo_log_path
                 demo_read_file [module_B; module_A]
                 [WorkerRuns 0 true; ResultOf 0;
                  WorkerRuns 0 true; ResultOf 0]).1.
Proof.
  apply (build_ndk_returned_installed "logs" "dist" false ∅ true
           demo_log_path demo_read_file [module_B; module_A]);
    by_evaluation.
Defined.

Lemma build_ndk_returned_completes_witness :
  EvComplete module_A
    ∈ trace (build_ndk "logs" "dist" true {[module_A]} true demo_log_path
               demo_read_file [module_B; module_A]
               [WorkerRuns 0 true; ResultOf 0]).1
  ∧ ((skipped true {[module_A]} module_A
      ∧ EvInstall module_A
          ∉ trace (build_ndk "logs" "dist" true {[module_A]} true
                     demo_log_path demo_read_file [module_B; module_A]
                     [WorkerRuns 0 true; ResultOf 0]).1)
     ∨ (module_A
          ∈ dispatched
              (trace (build_ndk "logs" "dist" true {[module_A]} true
                        demo_log_path demo_read_file [module_B; module_A]
                        [WorkerRuns 0 true; ResultOf 0]).1)
        ∧ EvInstall module_A
            ∈ trace (build_ndk "logs" "dist" true {[module_A]} true
                       demo_log_path demo_read_file [module_B; module_A]
                       [WorkerRuns 0 true; ResultOf 0]).1)).
Proof.
  apply (build_ndk_returned_completes "logs" "dist" true {[module_A]} true
           demo_log_path demo_read_file [module_B; module_A]
           (λ m, size (deps m))).
  - intros m n Hm Hn. exists module_A. split; [by_evaluation|].
    apply elem_of_cons in Hm as [->|Hm].
    + cbn in Hn. by apply elem_of_singleton in Hn.
    + apply list_elem_of_singleton in Hm as ->. cbn in Hn.
      by apply elem_of_empty in Hn.
  - intros m d Hm Hd Hn.
    apply elem_of_cons in Hm as [->|Hm].
    + apply elem_of_cons in Hd as [->|Hd].
      * cbn in Hn. by apply elem_of_singleton in Hn.
      * apply list_elem_of_singleton in Hd as ->. by_evaluation.
    + apply list_elem_of_singleton in Hm as ->. cbn in Hn.
      by apply elem_of_empty in Hn.
  - by_evaluation.
  - by_evaluation.
Defined.

End ProgressProofs.

(** ** From the names on the command line to the modules built *)

Module MainProofs.
Import Builds Deps Workqueue Checkbuild Selected Progress Main Examples.
Local Open Scope nat_scope.

Section Main.
Context `{!SetOrder}.
Variable ALL_MODULES : list BuildModule.
Variables (log_dir dist_dir : string).
Variables (skip_deps smart_console : bool).
Variable log_path : BuildModule → string → string.
Variable read_file : string → string.

(** The loop of [get_modules_to_build] returns only when every name is
    registered. *)
Lemma select_modules_returned module_names names st st' :
  for_each (select_module ALL_MODULES module_names) st names = Returned st' →
  ∀ n, n ∈ names → is_Some (NAMES_TO_MODULES ALL_MODULES !! n).
Proof.
  revert st. induction names as [|n names IH]; intros st; cbn.
  { by intros _ ? ?%elem_of_nil. }
  destruct (NAMES_TO_MODULES ALL_MODULES !! n) as [r|] eqn:Hn.
  2:{ by rewrite ClosureProofs.select_module_unknown. }
  destruct (select_module ALL_MODULES module_names st n) as [st1|e|]; cbn;
    [|done..].
  intros Hrest n' [->|Hn']%elem_of_cons; [by eexists|]. by eapply IH.
Qed.

(** What [get_modules_to_build] has returned. *)
Lemma get_modules_to_build_returned module_names modules_ deps_only_ :
  get_modules_to_build ALL_MODULES module_names
  = Returned (modules_, deps_only_) →
  (∀ u, ¬ unknown_dependency ALL_MODULES module_names u)
  ∧ (∀ x, x ∈ modules_ ↔ selected ALL_MODULES module_names x)
  ∧ (∀ x, x ∈ deps_only_ ↔
       selected ALL_MODULES module_names x ∧ name x ∉ module_names).
Proof.
  intros Hret.
  assert (Hknown : ∀ n, n ∈ module_names →
                        is_Some (NAMES_TO_MODULES ALL_MODULES !! n)).
  { unfold get_modules_to_build in Hret.
    destruct (for_each _ _ module_names) as [st|e|] eqn:Hloop; [|done..].
    by eapply select_modules_returned. }
  destruct (SelectionProofs.get_modules_to_build_spec ALL_MODULES
              module_names Hknown) as (st & Hm & Hd & Hu & Heq).
  rewrite Heq in Hret. case_decide as Hempty; [|done].
  injection Hret as <- <-. split_and!.
  - intros u Hunknown%Hu. set_solver.
  - intros x. by rewrite merge_sort_Permutation, set_iter_perm,
      elem_of_elements.
  - done.
Qed.

(** The modules returned name their dependencies among themselves. *)
Lemma get_modules_to_build_dependencies_listed module_names modules_
    deps_only_ :
  get_modules_to_build ALL_MODULES module_names
  = Returned (modules_, deps_only_) →
  dependencies_listed modules_.
Proof.
  intros (Hnone & Hm & _)%get_modules_to_build_returned m n Hsel%Hm Hn.
  destruct (NAMES_TO_MODULES ALL_MODULES !! n) as [d|] eqn:Hd.
  - exists d. split.
    + apply Hm. destruct Hsel as (n0 & r & ? & ? & Hreach).
      exists n0, r. split_and!; [done..|].
      eapply rtc_r; [done|]. by exists n.
    + by eapply SelectionProofs.NAMES_TO_MODULES_name.
  - destruct (Hnone n). split; [done|]. by exists m.
Qed.

(** X7: in [main], every module handed to the work queue is one of the
    modules announced as being built; with [--skip-deps] these are the
    selected modules whose name was given, so that only modules named by
    the user are built. *)
Theorem main_builds_announced module_names schedule modules_ deps_only_ :
  get_modules_to_build ALL_MODULES module_names
  = Returned (modules_, deps_only_) →
  let tr := (main_build ALL_MODULES log_dir dist_dir skip_deps smart_console
               log_path read_file module_names schedule).1 in
  (∀ m, EvAddTask m ∈ tr →
     m ∈ announced_modules skip_deps modules_ deps_only_)
  ∧ (skip_deps = true → ∀ m, EvAddTask m ∈ tr → name m ∈ module_names).
Proof.
  intros Hret. cbv zeta. unfold main_build. rewrite Hret.
  destruct (ProgressProofs.build_ndk_loop log_dir dist_dir skip_deps
              deps_only_ smart_console log_path read_file modules_ schedule)
    as (st & (_ & HM & _) & (Htr & _) & _ & _ & Heq & _).
  cbv zeta in Heq.
  destruct (build_ndk _ _ _ _ _ _ _ _ _) as [st' r]. cbn in Heq |- *.
  rewrite Heq.
  assert (Hadd : ∀ m, EvAddTask m ∈ EvPrint
                        ("Building modules: " +:+
                         join " " (name <$> announced_modules skip_deps
                                              modules_ deps_only_))
                        :: trace st →
                      m ∈ modules_
                      ∧ ¬ skipped skip_deps deps_only_ m).
  { intros m [?|Hm]%elem_of_cons; [done|]. split.
    - apply HM. left. by apply ProgressProofs.elem_of_dispatched.
    - apply list_elem_of_split in Hm as (before & after & Hsplit).
      by destruct (Htr _ _ _ Hsplit) as [Hnot _]. }
  split.
  - intros m [Hm Hnot]%Hadd. apply list_elem_of_filter. split; [|done].
    destruct skip_deps; [right|by left].
    intros Hin. by apply Hnot.
  - intros -> m [Hm Hnot]%Hadd.
    apply get_modules_to_build_returned in Hret as (_ & Hmod & Hdeps).
    destruct (decide (name m ∈ module_names)) as [|Hname]; [done|].
    destruct Hnot. split; [done|]. apply Hdeps. split; [by apply Hmod|done].
Qed.

(** X8: in [main], when the modules selected have no dependency cycle
    and the build loop returns, every module announced as being built
    has been handed to the work queue, installed and marked complete. *)
Theorem main_installs_announced rank module_names schedule modules_
    deps_only_ :
  get_modules_to_build ALL_MODULES module_names
  = Returned (modules_, deps_only_) →
  ranked rank modules_ →
  let res := main_build ALL_MODULES log_dir dist_dir skip_deps smart_console
               log_path read_file module_names schedule in
  res.2 = Returned () →
  ∀ m, m ∈ announced_modules skip_deps modules_ deps_only_ →
    EvAddTask m ∈ res.1 ∧ EvInstall m ∈ res.1 ∧ EvComplete m ∈ res.1.
Proof.
  intros Hret Hranked. cbv zeta. unfold main_build. rewrite Hret.
  pose proof (get_modules_to_build_dependencies_listed _ _ _ Hret) as Hlisted.
  destruct (ProgressProofs.build_ndk_loop log_dir dist_dir skip_deps
              deps_only_ smart_console log_path read_file modules_ schedule)
    as (st & Ht & (Htr & _ & Hcompl) & Hb & Hr & Heq & _).
  cbv zeta in Hr, Heq.
  destruct (build_ndk _ _ _ _ _ _ _ _ _) as [st' r]. cbn in Hr, Heq |- *.
  rewrite Heq. intros -> m [Hkeep Hm]%list_elem_of_filter.
  destruct Hr as [Hq Hfail].
  assert (m ∈ completed (dm st)) as Hc%Hcompl.
  { by eapply ProgressProofs.settled_completed. }
  apply list_elem_of_split in Hc as (b2 & a2 & Heq2).
  destruct (Htr _ _ _ Heq2) as [[Hskip Hin]|Hinst].
  { destruct Hkeep; [congruence|done]. }
  apply list_elem_of_split in Hinst as (b1 & a1 & Heq1).
  rewrite Heq1, <- app_assoc in Heq2.
  pose proof (Htr _ _ _ Heq2) as Hadd. cbn in Hadd.
  rewrite Heq2.
  split_and!; right; repeat (rewrite elem_of_app || rewrite elem_of_cons);
    auto 10.
Qed.

End Main.

Lemma main_builds_announced_witness :
  (∀ m, EvAddTask m
          ∈ (main_build NDK_MODULES "logs" "dist" true true demo_log_path
               demo_read_file ["make"; "yasm"] [WorkerRuns 1 true]).1 →
     m ∈ announced_modules true
           (filter (λ m, name m ∈ ["clang"; "make"; "yasm"]) NDK_MODULES)
           (list_to_set (filter (λ m, name m = "clang") NDK_MODULES)))
  ∧ (true = true →
     ∀ m, EvAddTask m
            ∈ (main_build NDK_MODULES "logs" "dist" true true demo_log_path
                 demo_read_file ["make"; "yasm"] [WorkerRuns 1 true]).1 →
       name m ∈ ["make"; "yasm"]).
Proof.
  apply (main_builds_announced NDK_MODULES "logs" "dist" true true
           demo_log_path demo_read_file ["make"; "yasm"]
           [WorkerRuns 1 true]).
  by_evaluation.
Defined.

Lemma main_installs_announced_witness :
  EvAddTask module_B
    ∈ (main_build [module_A; module_B] "logs" "dist" true true
         demo_log_path demo_read_file ["B"]
         [WorkerRuns 0 true; ResultOf 0]).1
  ∧ EvInstall module_B
      ∈ (main_build [module_A; module_B] "logs" "dist" true true
           demo_log_path demo_read_file ["B"]
           [WorkerRuns 0 true; ResultOf 0]).1
  ∧ EvComplete module_B
      ∈ (main_build [module_A; module_B] "logs" "dist" true true
           demo_log_path demo_read_file ["B"]
           [WorkerRuns 0 true; ResultOf 0]).1.
Proof.
  apply (main_installs_announced [module_A; module_B] "logs" "dist" true true
           demo_log_path demo_read_file (λ m, size (deps m)) ["B"]
           [WorkerRuns 0 true; ResultOf 0] [module_A; module_B]
           {[module_A]}).
  - by_evaluation.
  - intros m d Hm Hd Hn.
    apply elem_of_cons in Hm as [->|Hm].
    + cbn in Hn. by apply elem_of_empty in Hn.
    + apply list_elem_of_singleton in Hm as ->.
      apply elem_of_cons in Hd as [->|Hd].
      * by_evaluation.
      * apply list_elem_of_singleton in Hd as ->. cbn in Hn.
        by apply elem_of_singleton in Hn.
  - by_evaluation.
  - by_evaluation.
Defined.

End MainProofs.

(** ** The iteration order of sets *)

Module OrderProofs.
Import Builds Checkbuild Selected Examples.
Local Open Scope nat_scope.

Section Orders.
Variables (order1 order2 : SetOrder).
Variable ALL_MODULES : list BuildModule.

Lemma select_module_order module_names st n :
  @select_module order1 ALL_MODULES module_names st n
  = @select_module order2 ALL_MODULES module_names st n.
Proof.
  destruct (NAMES_TO_MODULES ALL_MODULES !! n) as [r|] eqn:Hn.
  2:{ by rewrite !ClosureProofs.select_module_unknown. }
  destruct (@SelectionProofs.select_module_spec order1 ALL_MODULES
              module_names st n r Hn) as (st1 & -> & Hm1 & Hd1 & Hu1).
  destruct (@SelectionProofs.select_module_spec order2 ALL_MODULES
              module_names st n r Hn) as (st2 & -> & Hm2 & Hd2 & Hu2).
  f_equal. destruct st1 as [u1 m1 d1], st2 as [u2 m2 d2]. cbn in *.
  f_equal; apply set_eq; intros x.
  - by rewrite Hu1, Hu2.
  - by rewrite Hm1, Hm2.
  - by rewrite Hd1, Hd2.
Qed.

Lemma select_modules_order module_names names st :
  for_each (@select_module order1 ALL_MODULES module_names) st names
  = for_each (@select_module order2 ALL_MODULES module_names) st names.
Proof.
  revert st. induction names as [|n names IH]; intros st; cbn; [done|].
  rewrite select_module_order.
  destruct (@select_module order2 ALL_MODULES module_names st n); cbn; auto.
Qed.

(** Two sorted lists with the same elements, sorted by a key that no
    two elements share. *)
Lemma sorted_by_key_unique {A} (key : A → string) (l1 l2 : list A) :
  (∀ x y, x ∈ l1 → y ∈ l2 → key x = key y → x = y) →
  StronglySorted (λ a b, String.le (key a) (key b)) l1 →
  StronglySorted (λ a b, String.le (key a) (key b)) l2 →
  l1 ≡ₚ l2 → l1 = l2.
Proof.
  intros Hkey. apply StronglySorted_unique_strong.
  intros x y Hx Hy Hxy Hyx. apply Hkey; [done..|].
  by apply (anti_symm String.le).
Qed.

(** X19: the answer of [get_modules_to_build] does not depend on the
    order in which Python iterates over its sets: the modules are
    sorted by name and no two selected modules have the same name, and
    the unknown names are sorted before they are reported. *)
Theorem get_modules_to_build_order_independent module_names :
  @get_modules_to_build order1 ALL_MODULES module_names
  = @get_modules_to_build order2 ALL_MODULES module_names.
Proof.
  unfold get_modules_to_build. rewrite select_modules_order.
  destruct (for_each (@select_module order2 ALL_MODULES module_names) _
              module_names) as [st|e|] eqn:Hloop; cbn; [|done..].
  assert (Hknown : ∀ n, n ∈ module_names →
                        is_Some (NAMES_TO_MODULES ALL_MODULES !! n)).
  { by eapply (@MainProofs.select_modules_returned order2). }
  destruct (@SelectionProofs.select_modules_spec order2 ALL_MODULES
              module_names module_names
              {| unknown_modules := ∅; modules := ∅; deps_only := ∅ |}
              Hknown) as (st' & Hloop' & Hm & _).
  rewrite Hloop in Hloop'. injection Hloop' as <-. cbn in Hm.
  case_decide.
  - f_equal. f_equal.
    apply (sorted_by_key_unique name).
    + intros x y Hx Hy Hname.
      rewrite merge_sort_Permutation, (@set_iter_perm order1),
        elem_of_elements, Hm in Hx.
      rewrite merge_sort_Permutation, (@set_iter_perm order2),
        elem_of_elements, Hm in Hy.
      destruct Hx as [?%elem_of_empty|Hx]; [done|].
      destruct Hy as [?%elem_of_empty|Hy]; [done|].
      apply (SelectionProofs.selected_lookup ALL_MODULES) in Hx, Hy.
      rewrite Hname in Hx. congruence.
    + apply (@StronglySorted_merge_sort _ name_le _
               SelectionProofs.name_le_trans SelectionProofs.name_le_total).
    + apply (@StronglySorted_merge_sort _ name_le _
               SelectionProofs.name_le_trans SelectionProofs.name_le_total).
    + by rewrite !merge_sort_Permutation, (@set_iter_perm order1),
        (@set_iter_perm order2).
  - do 4 f_equal.
    apply (sorted_by_key_unique id).
    + by intros x y _ _ ?.
    + apply (StronglySorted_merge_sort String.le); apply _.
    + apply (StronglySorted_merge_sort String.le); apply _.
    + by rewrite !merge_sort_Permutation, (@set_iter_perm order1),
        (@set_iter_perm order2).
Qed.

End Orders.

End OrderProofs.

(** ** Errors and broken configurations in the test runner *)

Module RunTestProofs.
Import Builder Examples Scripted.

Section RunTest.
Context {Test Path TestFilter : Type} `{!TestClass Test Path TestFilter}.
Variable format_exc : PyExc → string.
Variables (suite : string) (test : Test) (obj_dir dist_dir : Path).
Variable test_filters : TestFilter.

(** X9: once the build action of a supported test has returned, an
    [Exception] raised by [is_negative_test()] or by [check_broken()]
    is caught like one raised by the build action: the result is a
    Failure carrying the formatted traceback, and the additional tests
    the build action returned are dropped. *)
Theorem run_test_late_exception_is_failure result additional e :
  check_unsupported test = Returned None →
  run test obj_dir dist_dir test_filters = Returned (result, additional) →
  is_negative_test test = Raised e
  ∨ (∃ negative, is_negative_test test = Returned negative
                 ∧ check_broken test = Raised e) →
  is_Exception e = true →
  (_run_test format_exc suite test obj_dir dist_dir test_filters).2
  = Returned (suite, Failure test (format_exc e), []).
Proof.
  intros Hu Hr Hlate He. unfold _run_test, call, perform.
  rewrite Hu, Hr. destruct Hlate as [->|(negative & -> & ->)]; cbn;
    by rewrite He.
Qed.

(** X10: whatever the methods of the test do, [_run_test] raises an
    exception only when [check_unsupported()] raised it, or when it is
    not an instance of [Exception] (a [KeyboardInterrupt] or a
    [SystemExit]) and one of the calls in the [try] block raised it. *)
Theorem run_test_raises e :
  (_run_test format_exc suite test obj_dir dist_dir test_filters).2
  = Raised e →
  check_unsupported test = Raised e
  ∨ (check_unsupported test = Returned None
     ∧ is_Exception e = false
     ∧ (run test obj_dir dist_dir test_filters = Raised e
        ∨ is_negative_test test = Raised e
        ∨ check_broken test = Raised e)).
Proof.
  unfold _run_test, call, perform.
  destruct (check_unsupported test) as [[config|]|e0|] eqn:Hu; cbn;
    [done| |by intros [= ->]; left|done].
  intros Hraised. right. split; [done|]. revert Hraised.
  destruct (run test obj_dir dist_dir test_filters)
    as [[result additional]|e1|] eqn:Hr; cbn.
  - destruct (is_negative_test test) as [negative|e2|] eqn:Hn; cbn.
    + destruct (check_broken test) as [[[config|] [bug|]]|e3|] eqn:Hb; cbn;
        try done.
      destruct (is_Exception e3) eqn:He3; cbn; [done|].
      intros [= ->]. auto.
    + destruct (is_Exception e2) eqn:He2; cbn; [done|].
      intros [= ->]. auto.
    + done.
  - destruct (is_Exception e1) eqn:He1; cbn; [done|].
    intros [= ->]. auto.
  - done.
Qed.

End RunTest.

Lemma run_test_late_exception_is_failure_witness :
  (_run_test demo_format_exc "build" misconfigured_test "obj" "dist" ()).2
  = Returned ("build",
              Failure misconfigured_test
                (demo_format_exc (RuntimeError "bad test_config.py")), []).
Proof.
  apply (run_test_late_exception_is_failure demo_format_exc "build"
           misconfigured_test "obj" "dist" ()
           (Success misconfigured_test) [misconfigured_test]).
  - reflexivity.
  - reflexivity.
  - right. exists false. split; reflexivity.
  - reflexivity.
Defined.

Lemma run_test_raises_witness :
  check_unsupported interrupted_late_test = Raised KeyboardInterrupt
  ∨ (check_unsupported interrupted_late_test = Returned None
     ∧ is_Exception KeyboardInterrupt = false
     ∧ (run interrupted_late_test "obj" "dist" () = Raised KeyboardInterrupt
        ∨ is_negative_test interrupted_late_test = Raised KeyboardInterrupt
        ∨ check_broken interrupted_late_test = Raised KeyboardInterrupt)).
Proof.
  apply (run_test_raises demo_format_exc "build" interrupted_late_test
           "obj" "dist" ()).
  reflexivity.
Defined.

End RunTestProofs.

(** ** Parsing build configurations *)

Module FromStringProofs.
Import Spec SpecProofs.











(** X11: [from_string] fails with [ValueError] only, as its docstring
    says: whatever the string, it returns a configuration or raises a
    [ValueError]. *)
Theorem from_string_raises_ValueError s :
  (∃ c, from_string s = Returned c)
  ∨ (∃ msg, from_string s = Raised (ValueError msg)).
Proof.
  unfold from_string.
  destruct (partition "-" s) as [[a0 found] rest0].
  destruct (if String.eqb a0 "armeabi" && startswith rest0 "v7a-"
            then (a0 +:+ "-v7a", (partition "-" rest0).2)
            else if String.eqb a0 "arm64" && startswith rest0 "v8a-"
                 then (a0 +:+ "-v8a", (partition "-" rest0).2)
                 else (a0, rest0)) as [a rest].
  destruct (split "-" rest) as [|api_str [|tf [|? ?]]]; cbn; eauto.
  unfold int_str. destruct (NilZero.int_of_string _); cbn; eauto.
  unfold CMakeToolchainFile_of_value.
  destruct (String.eqb tf "legacy"); cbn; eauto.
  destruct (String.eqb tf "new"); cbn; eauto.
Qed.





End FromStringProofs.

(** ** Lowering the minimum API level *)

Module ApiLevelProofs.
Import Spec.

(** X14: lowering the minimum API level never loses the device found
    and never picks a newer one: when [_desired_api_level] returns an
    API level for a minimum, it returns one for every smaller minimum,
    and that one is not above the first. *)
Theorem desired_api_level_monotone min_api min_api' abi_ devices a' :
  min_api ≤ min_api' →
  _desired_api_level min_api' abi_ devices = Returned a' →
  ∃ a, _desired_api_level min_api abi_ devices = Returned a
       ∧ min_api ≤ a ≤ a'.
Proof.
  intros Hle. unfold _desired_api_level.
  set (apis := merge_sort Z.le (elements (dom devices))).
  assert (Hsorted : StronglySorted Z.le apis).
  { apply StronglySorted_merge_sort; apply _. }
  assert (Hdom : ∀ a, a ∈ apis → is_Some (devices !! a)).
  { intros a. unfold apis.
    by rewrite merge_sort_Permutation, elem_of_elements, elem_of_dom. }
  pose proof (SpecProofs.desired_api_level_loop_spec min_api' abi_ devices
                apis Hsorted Hdom) as Hhigh.
  pose proof (SpecProofs.desired_api_level_loop_spec min_api abi_ devices
                apis Hsorted Hdom) as Hlow.
  intros Hret. rewrite Hret in Hhigh.
  destruct Hhigh as (Hin & [Hmin Habis] & _).
  assert (device_supports min_api abi_ devices a') as Hsup.
  { split; [lia|done]. }
  destruct (_desired_api_level_loop min_api abi_ devices apis) as [a|e|].
  - destruct Hlow as (_ & [Hmin' _] & Hleast). exists a.
    split; [done|]. split; [done|]. by apply Hleast.
  - destruct Hlow as [_ Hnone]. by destruct (Hnone a').
  - done.
Qed.

Lemma desired_api_level_monotone_witness :
  ∃ a, _desired_api_level 19 "arm64-v8a"
         {[ 29 := ["arm64-v8a"]; 21 := ["armeabi-v7a"; "arm64-v8a"];
            24 := ["x86"] ]} = Returned a
       ∧ 19 ≤ a ≤ 29.
Proof.
  apply (desired_api_level_monotone 19 23 "arm64-v8a"
           {[ 29 := ["arm64-v8a"]; 21 := ["armeabi-v7a"; "arm64-v8a"];
              24 := ["x86"] ]} 29).
  - lia.
  - by_evaluation.
Defined.

End ApiLevelProofs.

(** ** Build directories of the tests of a builder *)

Module TestBuilderProofs.
Import TestBuilder.

Section Builder.
Context {Test Path Scanner : Type} `{Countable Path}.
Variable get_build_dir : Test → Path.
Variable test_str : Test → string.
Variable listdir : Path → list string.
Variable is_dir : Path → bool.
Variable path_join : Path → string → Path.
Variable path_name : Path → string.
Variable scanner_find_tests : Scanner → Path → string → list Test.

Lemma check_no_overlapping_build_dirs_spec suite new_tests self :
  let res := check_no_overlapping_build_dirs get_build_dir test_str
               suite new_tests self in
  tests res.1 = tests self
  ∧ build_dirs self ⊆ build_dirs res.1
  ∧ match res.2 with
    | Returned _ =>
        fresh_build_dirs get_build_dir new_tests self
        ∧ ∀ test, test ∈ new_tests →
            build_dirs res.1 !! get_build_dir test = Some (suite, test)
    | Raised e =>
        (∃ msg, e = RuntimeError msg) ∧ ¬ fresh_build_dirs get_build_dir new_tests self
    | Diverged => False
    end.
Proof.
  cbv zeta. unfold fresh_build_dirs. revert self.
  induction new_tests as [|test new_tests IH]; intros self; cbn.
  { split_and!; [done|done|constructor|..]; by intros ? ?%elem_of_nil. }
  destruct (build_dirs self !! get_build_dir test) as [[dup_suite dup_test]|]
    eqn:Hdir; cbn.
  { split_and!; [done..|by eexists|].
    intros [_ Hfresh]. specialize (Hfresh test ltac:(by left)).
    congruence. }
  specialize (IH {| tests := tests self;
                    build_dirs := <[get_build_dir test := (suite, test)]>
                                    (build_dirs self) |}).
  destruct (check_no_overlapping_build_dirs _ _ _ _ _) as [self' r].
  cbn in *. destruct IH as (Htests & Hsub & Hres).
  assert (build_dirs self ⊆ build_dirs self') as Hsub'.
  { etrans; [|done]. by apply insert_subseteq. }
  split_and!; [done..|].
  destruct r as [[]|e|]; [| |done].
  - destruct Hres as [[Hnd Hfresh] Hown]. split_and!.
    + apply NoDup_cons. split; [|done].
      intros (t & Heq & Ht)%list_elem_of_fmap.
      specialize (Hfresh t Ht). rewrite <- Heq in Hfresh.
      by rewrite lookup_insert_eq in Hfresh.
    + intros t [->|Ht]%elem_of_cons; [done|].
      specialize (Hfresh t Ht).
      by apply lookup_insert_None in Hfresh as [? _].
    + intros t [->|Ht]%elem_of_cons; [|by apply Hown].
      eapply lookup_weaken; [|exact Hsub]. apply lookup_insert_eq.
  - destruct Hres as [Hmsg Hnot]. split; [done|].
    intros [[Hnotin Hnd]%NoDup_cons Hfresh]. apply Hnot. split; [done|].
    intros t Ht. apply lookup_insert_None. split.
    + apply Hfresh. by right.
    + intros Heq. apply Hnotin, list_elem_of_fmap. by exists t.
Qed.

(** [add_suite] keeps every registered test the owner of its build
    directory, whether it returns or raises. *)
Lemma add_suite_build_dirs_owned name path test_scanner self :
  build_dirs_owned get_build_dir self →
  build_dirs_owned get_build_dir
    (add_suite get_build_dir test_str listdir is_dir path_join path_name
       scanner_find_tests name path test_scanner self).1.
Proof.
  intros Hown. unfold add_suite. case_decide as Hname; [done|].
  pose proof (check_no_overlapping_build_dirs_spec name
    (scan_test_suite listdir is_dir path_join path_name scanner_find_tests
       path test_scanner) self) as Hcheck. cbv zeta in Hcheck.
  destruct (check_no_overlapping_build_dirs _ _ _ _ _) as [self' r].
  cbn in Hcheck. destruct Hcheck as (Htests & Hsub & Hres).
  assert (Hold : ∀ suite suite_tests,
    tests self !! suite = Some suite_tests →
    NoDup (get_build_dir <$> suite_tests)
    ∧ ∀ test, test ∈ suite_tests →
        build_dirs self' !! get_build_dir test = Some (suite, test)).
  { intros suite suite_tests Hsuite.
    destruct (Hown suite suite_tests Hsuite) as [Hnd Hdirs].
    split; [done|]. intros t Ht. eapply lookup_weaken; [|done]. auto. }
  destruct r as [[]|e|]; cbn.
  - destruct Hres as [[Hnd _] Hnew].
    intros suite suite_tests Hsuite. cbn in Hsuite |- *.
    apply lookup_insert_Some in Hsuite as [[<- <-]|[_ Hsuite]].
    + done.
    + apply Hold. by rewrite <- Htests.
  - intros suite suite_tests Hsuite. apply Hold. by rewrite <- Htests.
  - done.
Qed.

Lemma add_suite_dom name path test_scanner self :
  let res := add_suite get_build_dir test_str listdir is_dir path_join
               path_name scanner_find_tests name path test_scanner self in
  dom (tests res.1) ⊆ dom (tests self) ∪ {[name]}
  ∧ (name ∉ dom (tests self) →
     res.2 = Returned () ∨ ∃ msg, res.2 = Raised (RuntimeError msg)).
Proof.
  cbv zeta. unfold add_suite. case_decide as Hname; [set_solver|].
  pose proof (check_no_overlapping_build_dirs_spec name
    (scan_test_suite listdir is_dir path_join path_name scanner_find_tests
       path test_scanner) self) as Hcheck. cbv zeta in Hcheck.
  destruct (check_no_overlapping_build_dirs _ _ _ _ _) as [self' r].
  cbn in Hcheck. destruct Hcheck as (Htests & Hsub & Hres).
  destruct r as [[]|e|]; cbn.
  - rewrite dom_insert, Htests. split; [set_solver|auto].
  - rewrite Htests. destruct Hres as [[msg ->] _]. split; [set_solver|eauto].
  - done.
Qed.

(** X15: [add_suite] for a name that is not yet a suite returns exactly
    when the build directories of the tests scanned are pairwise
    distinct and none of them is recorded for another test; the tests
    are then stored under the name.  Otherwise it raises
    [RuntimeError] and stores no suite. *)
Theorem add_suite_returns_iff name path test_scanner self :
  name ∉ dom (tests self) →
  let new_tests := scan_test_suite listdir is_dir path_join path_name
                     scanner_find_tests path test_scanner in
  let res := add_suite get_build_dir test_str listdir is_dir path_join
               path_name scanner_find_tests name path test_scanner self in
  (res.2 = Returned () ↔ fresh_build_dirs get_build_dir new_tests self)
  ∧ (res.2 = Returned () → tests res.1 = <[name := new_tests]> (tests self))
  ∧ (res.2 ≠ Returned () →
     (∃ msg, res.2 = Raised (RuntimeError msg)) ∧ tests res.1 = tests self).
Proof.
  intros Hname. cbv zeta. unfold add_suite. rewrite decide_False by done.
  pose proof (check_no_overlapping_build_dirs_spec name
    (scan_test_suite listdir is_dir path_join path_name scanner_find_tests
       path test_scanner) self) as Hcheck. cbv zeta in Hcheck.
  destruct (check_no_overlapping_build_dirs _ _ _ _ _) as [self' r].
  cbn in Hcheck. destruct Hcheck as (Htests & Hsub & Hres).
  destruct r as [[]|e|]; cbn.
  - destruct Hres as [Hfresh _]. split_and!; [done| |done].
    intros _. by rewrite Htests.
  - destruct Hres as [[msg ->] Hnot]. split_and!; [done|done|eauto].
  - done.
Qed.

(** X16: constructing a test builder either returns or raises
    [RuntimeError] for a duplicate build directory, never the
    [KeyError] of a suite added twice; and in the builder it leaves,
    two tests of its suites that have the same build directory are the
    same test of the same suite. *)
Theorem TestBuilder_init_build_dirs suites src_dir scanner nodist_scanner
    libcxx_scanner :
  let res := TestBuilder_init get_build_dir test_str listdir is_dir
               path_join path_name scanner_find_tests suites src_dir
               scanner nodist_scanner libcxx_scanner in
  (res.2 = Returned () ∨ ∃ msg, res.2 = Raised (RuntimeError msg))
  ∧ ∀ suite1 suite2 tests1 tests2 test1 test2,
      tests res.1 !! suite1 = Some tests1 → test1 ∈ tests1 →
      tests res.1 !! suite2 = Some tests2 → test2 ∈ tests2 →
      get_build_dir test1 = get_build_dir test2 →
      suite1 = suite2 ∧ test1 = test2.
Proof.
  cbv zeta.
  assert (Hstep : ∀ name test_scanner (names : gset string) self,
    name ∉ names →
    dom (tests self) ⊆ names → build_dirs_owned get_build_dir self →
    let res := (if decide (name ∈ suites)
                then add_suite get_build_dir test_str listdir is_dir path_join
                       path_name scanner_find_tests name
                       (path_join src_dir name) test_scanner self
                else (self, Returned ())) in
    dom (tests res.1) ⊆ names ∪ {[name]}
    ∧ build_dirs_owned get_build_dir res.1
    ∧ (res.2 = Returned () ∨ ∃ msg, res.2 = Raised (RuntimeError msg))).
  { intros name test_scanner names self Hname Hdom Hown. cbv zeta.
    case_decide; [|split_and!; [set_solver|done|auto]].
    destruct (add_suite_dom name (path_join src_dir name) test_scanner self)
      as [Hdom' Hres].
    split_and!; [set_solver|by apply add_suite_build_dirs_owned|].
    apply Hres. set_solver. }
  assert (Hall :
    let res := TestBuilder_init get_build_dir test_str listdir is_dir
                 path_join path_name scanner_find_tests suites src_dir
                 scanner nodist_scanner libcxx_scanner in
    build_dirs_owned get_build_dir res.1
    ∧ (res.2 = Returned () ∨ ∃ msg, res.2 = Raised (RuntimeError msg))).
  { cbv zeta. unfold TestBuilder_init, find_tests, and_then.
    destruct (Hstep "build" nodist_scanner ∅
                {| tests := ∅; build_dirs := ∅ |})
      as (Hd1 & Ho1 & Hr1); [set_solver|set_solver|done|].
    cbv zeta in Hd1, Ho1, Hr1.
    destruct (if decide ("build" ∈ suites) then _ else _) as [self1 r1].
    cbn in Hd1, Ho1, Hr1.
    destruct Hr1 as [->|[msg ->]]; [|eauto].
    destruct (Hstep "device" scanner (∅ ∪ {["build"]}) self1)
      as (Hd2 & Ho2 & Hr2); [set_solver|done|done|].
    cbv zeta in Hd2, Ho2, Hr2.
    destruct (if decide ("device" ∈ suites) then _ else _) as [self2 r2].
    cbn in Hd2, Ho2, Hr2.
    destruct Hr2 as [->|[msg ->]]; [|eauto].
    destruct (Hstep "libc++" libcxx_scanner
                (∅ ∪ {["build"]} ∪ {["device"]}) self2)
      as (Hd3 & Ho3 & Hr3); [set_solver|done|done|].
    done. }
  cbv zeta in Hall. destruct Hall as [Hown Hres]. split; [done|].
  intros suite1 suite2 tests1 tests2 test1 test2 Hs1 Ht1 Hs2 Ht2 Hdir.
  destruct (Hown _ _ Hs1) as [_ Hd1]. destruct (Hown _ _ Hs2) as [_ Hd2].
  specialize (Hd1 _ Ht1). specialize (Hd2 _ Ht2).
  rewrite Hdir in Hd1. rewrite Hd1 in Hd2. by simplify_eq.
Qed.

End Builder.

Lemma add_suite_returns_iff_witness :
  ((demo_add_suite "build" "tests/build" ["arm64"; "x86"]
      {| tests := ∅; build_dirs := ∅ |}).2 = Returned ()
   ↔ fresh_build_dirs snd
       [("tests/build/a", "tests/build/a/arm64");
        ("tests/build/a", "tests/build/a/x86");
        ("tests/build/b", "tests/build/b/arm64");
        ("tests/build/b", "tests/build/b/x86")]
       {| tests := ∅; build_dirs := ∅ |})
  ∧ ((demo_add_suite "build" "tests/build" ["arm64"; "x86"]
        {| tests := ∅; build_dirs := ∅ |}).2 = Returned () →
     tests (demo_add_suite "build" "tests/build" ["arm64"; "x86"]
              {| tests := ∅; build_dirs := ∅ |}).1
     = <["build" := [("tests/build/a", "tests/build/a/arm64");
                     ("tests/build/a", "tests/build/a/x86");
                     ("tests/build/b", "tests/build/b/arm64");
                     ("tests/build/b", "tests/build/b/x86")]]> ∅)
  ∧ ((demo_add_suite "build" "tests/build" ["arm64"; "x86"]
        {| tests := ∅; build_dirs := ∅ |}).2 ≠ Returned () →
     (∃ msg, (demo_add_suite "build" "tests/build" ["arm64"; "x86"]
                {| tests := ∅; build_dirs := ∅ |}).2
             = Raised (RuntimeError msg))
     ∧ tests (demo_add_suite "build" "tests/build" ["arm64"; "x86"]
                {| tests := ∅; build_dirs := ∅ |}).1 = ∅).
Proof.
  apply (add_suite_returns_iff snd fst demo_listdir demo_is_dir
           demo_path_join (λ path, path) demo_find_tests
           "build" "tests/build" ["arm64"; "x86"]
           {| tests := ∅; build_dirs := ∅ |}).
  cbn. apply not_elem_of_dom. apply lookup_empty.
Defined.

End TestBuilderProofs.

(** ** The API levels of the platforms directory *)

Module PlatformsProofs.
Import Spec SpecProofs FromStringProofs Platforms.








(** A directory with a file and three platforms, one below the minimum;
    and a codenamed platform with a dash in its code name, for which
    the unpacking of the split name fails before the message about
    codenamed APIs is reached. *)
Example get_apis_examples :
  get_apis 16 ["android-21"; "README"; "android-16"; "android-14"]
  = Returned [16; 21]
  ∧ get_apis 16 ["android-21"; "android-O-MR1"]
    = Raised (ValueError "too many values to unpack (expected 2)").
Proof. split; reflexivity. Qed.

End PlatformsProofs.

(** ** The system libraries of the sysroot *)

Module MetaProofs.
Import Checkbuild Meta.

#[local] Instance item_le_trans : Transitive item_le.
Proof.
  intros [a1 a2] [b1 b2] [c1 c2]. unfold item_le. cbn.
  destruct (decide (a1 = b1)) as [Hab|Hab], (decide (b1 = c1)) as [Hbc|Hbc],
    (decide (a1 = c1)) as [Hac|Hac]; intros H1 H2; subst; try done.
  - by etrans.
  - destruct Hab. by apply (anti_symm String.le).
  - by etrans.
Qed.

#[local] Instance item_le_total : Total item_le.
Proof.
  intros [a1 a2] [b1 b2]. unfold item_le. cbn.
  destruct (decide (a1 = b1)) as [Hab|Hab], (decide (b1 = a1)) as [Hba|Hba];
    subst; try done; apply total, _.
Qed.

Lemma item_le_fst a b : item_le a b → String.le a.1 b.1.
Proof.
  unfold item_le. destruct (decide (a.1 = b.1)) as [->|]; [|done].
  intros _. reflexivity.
Qed.

Lemma StronglySorted_weaken {A} (R1 R2 : relation A) l :
  (∀ a b, R1 a b → R2 a b) → StronglySorted R1 l → StronglySorted R2 l.
Proof.
  intros Himpl. induction 1 as [|a l _ IH Hall]; constructor; [done|].
  eapply Forall_impl; [done|]. auto.
Qed.

(** The first element of a list that has a decidable property some
    element has. *)
Lemma first_occurrence {A} (P : A → Prop) `{∀ x, Decision (P x)} l x :
  x ∈ l → P x →
  ∃ l1 y l2, l = l1 ++ y :: l2 ∧ P y ∧ ∀ z, z ∈ l1 → ¬ P z.
Proof.
  induction l as [|a l IH]; [by intros ?%elem_of_nil|].
  intros Hx HP. destruct (decide (P a)) as [Ha|Ha].
  { exists [], a, l. split_and!; [done..|]. by intros z ?%elem_of_nil. }
  apply elem_of_cons in Hx as [->|Hx]; [done|].
  destruct (IH Hx HP) as (l1 & y & l2 & -> & Hy & Hl1).
  exists (a :: l1), y, l2. split_and!; [done..|].
  intros z [->|Hz]%elem_of_cons; auto.
Qed.

Section SystemLibs.
Variable listdir : string → list string.
Variable isdir : string → bool.
Variable sysroot_base : string.

#[local] Instance provides_dec api_name lib :
  Decision (provides listdir isdir sysroot_base api_name lib).
Proof. unfold provides. apply _. Defined.

(** A shared object whose name does not start with [lib]. *)
Lemma scan_library_spec api_name system_libs lib :
  match scan_library api_name system_libs lib with
  | Returned system_libs' =>
      ¬ (endswith lib ".so" = true ∧ startswith lib "lib" = false)
      ∧ ∀ l v, system_libs' !! l = Some v ↔
          system_libs !! l = Some v
          ∨ (system_libs !! l = None ∧ v = api_name ∧ l = lib
             ∧ system_library l)
  | Raised e =>
      e = RuntimeError ("Found unexpected file in sysroot: " +:+ lib)
      ∧ endswith lib ".so" = true ∧ startswith lib "lib" = false
  | Diverged => False
  end.
Proof.
  unfold scan_library, system_library.
  destruct (endswith lib ".so") eqn:Hso; cbn.
  2:{ split; [by intros [? _]|]. intros l v. split; [auto|].
      intros [?|(_ & _ & -> & Hsys & _)]; [done|congruence]. }
  destruct (startswith lib "lib") eqn:Hlib; cbn; [|done].
  destruct (String.eqb lib "libc++.so") eqn:Hcxx.
  { apply String.eqb_eq in Hcxx. split; [by intros [_ ?]|].
    intros l v. split; [auto|].
    intros [?|(_ & _ & -> & _ & _ & ?)]; done. }
  apply String.eqb_neq in Hcxx.
  case_decide as Hin; (split; [by intros [_ ?]|]).
  - apply elem_of_dom in Hin as [v0 Hv0]. intros l v. split; [auto|].
    intros [?|(Hnone & _ & -> & _)]; [done|congruence].
  - apply not_elem_of_dom in Hin. intros l v.
    rewrite lookup_insert_Some. split.
    + intros [[<- <-]|[Hne ?]]; [|auto]. right. by split_and!.
    + intros [Hl|(_ & -> & -> & _)]; [|auto].
      right. split; [|done]. intros <-. congruence.
Qed.

Lemma scan_libraries_spec api_name libs system_libs :
  match for_each (scan_library api_name) system_libs libs with
  | Returned system_libs' =>
      (∀ lib, lib ∈ libs →
         ¬ (endswith lib ".so" = true ∧ startswith lib "lib" = false))
      ∧ ∀ l v, system_libs' !! l = Some v ↔
          system_libs !! l = Some v
          ∨ (system_libs !! l = None ∧ v = api_name ∧ l ∈ libs
             ∧ system_library l)
  | Raised e =>
      ∃ lib, lib ∈ libs
             ∧ e = RuntimeError ("Found unexpected file in sysroot: " +:+ lib)
             ∧ endswith lib ".so" = true ∧ startswith lib "lib" = false
  | Diverged => False
  end.
Proof.
  revert system_libs. induction libs as [|lib libs IH]; intros M; cbn.
  { split; [by intros ? ?%elem_of_nil|]. intros l v. split; [auto|].
    by intros [?|(_ & _ & ?%elem_of_nil & _)]. }
  pose proof (scan_library_spec api_name M lib) as Hlib.
  destruct (scan_library api_name M lib) as [M1|e|]; cbn; [| |done].
  - destruct Hlib as [Hok1 Hin1]. specialize (IH M1).
    destruct (for_each _ M1 libs) as [M'|e|]; [| |done].
    + destruct IH as [Hok Hin]. split.
      * intros l [->|?]%elem_of_cons; auto.
      * intros l v. rewrite Hin. setoid_rewrite elem_of_cons.
        assert (M1 !! l = None
                ↔ M !! l = None ∧ ¬ (l = lib ∧ system_library l)) as ->.
        { split.
          - intros Hnone1. split.
            + destruct (M !! l) as [v0|] eqn:Hl; [|done].
              assert (M1 !! l = Some v0) as Hl1 by (apply Hin1; auto).
              congruence.
            + intros [-> Hsys].
              assert (M1 !! lib = Some api_name) as Hl1; [|congruence].
              apply Hin1. right. split_and!; [|done..].
              destruct (M !! lib) as [v0|] eqn:Hl; [|done].
              assert (M1 !! lib = Some v0) as Hl1 by (apply Hin1; auto).
              congruence.
          - intros [Hnone Hnot]. destruct (M1 !! l) as [v1|] eqn:Hl1; [|done].
            apply Hin1 in Hl1 as [?|(_ & _ & ? & ?)]; [congruence|].
            by destruct Hnot. }
        rewrite (Hin1 l v). split.
        -- intros [[?|(? & ? & ? & ?)]|([? _] & ? & ? & ?)]; auto 10.
        -- intros [?|(Hnone & ? & [->|?] & Hsys)]; [auto|auto 10|].
           destruct (decide (l = lib)) as [->|Hne]; [auto 10|].
           right. split_and!; [done| |done..]. by intros [? _].
    + destruct IH as (l & ? & ?). exists l. split; [by right|done].
  - destruct Hlib as (-> & ? & ?). exists lib. split; [by left|done].
Qed.

Lemma scan_api_spec system_libs api_name :
  match scan_api listdir isdir sysroot_base system_libs api_name with
  | Returned system_libs' =>
      (∀ lib, provides listdir isdir sysroot_base api_name lib →
         ¬ (endswith lib ".so" = true ∧ startswith lib "lib" = false))
      ∧ ∀ l v, system_libs' !! l = Some v ↔
          system_libs !! l = Some v
          ∨ (system_libs !! l = None ∧ v = api_name
             ∧ provides listdir isdir sysroot_base api_name l
             ∧ system_library l)
  | Raised e =>
      ∃ lib, provides listdir isdir sysroot_base api_name lib
             ∧ e = RuntimeError ("Found unexpected file in sysroot: " +:+ lib)
             ∧ endswith lib ".so" = true ∧ startswith lib "lib" = false
  | Diverged => False
  end.
Proof.
  unfold scan_api, provides.
  destruct (isdir (os_path_join sysroot_base api_name)) eqn:Hdir; cbn.
  2:{ split; [by intros ? [? _]|]. intros l v. split; [auto|].
      by intros [?|(_ & _ & [? _] & _)]. }
  pose proof (scan_libraries_spec api_name
                (listdir (os_path_join sysroot_base api_name)) system_libs)
    as Hlibs.
  destruct (for_each _ system_libs _) as [M'|e|]; [| |done].
  - destruct Hlibs as [Hok Hin]. split; [by intros lib [_ ?]; apply Hok|].
    intros l v. rewrite Hin. naive_solver.
  - destruct Hlibs as (lib & ? & ?). exists lib. auto.
Qed.

Lemma scan_apis_spec api_names system_libs :
  match for_each (scan_api listdir isdir sysroot_base) system_libs api_names
  with
  | Returned system_libs' =>
      (∀ api_name lib,
         api_name ∈ api_names →
         provides listdir isdir sysroot_base api_name lib →
         ¬ (endswith lib ".so" = true ∧ startswith lib "lib" = false))
      ∧ ∀ l v, system_libs' !! l = Some v ↔
          system_libs !! l = Some v
          ∨ (system_libs !! l = None ∧ system_library l
             ∧ ∃ before after,
                 api_names = before ++ v :: after
                 ∧ provides listdir isdir sysroot_base v l
                 ∧ ∀ a, a ∈ before →
                     ¬ provides listdir isdir sysroot_base a l)
  | Raised e =>
      ∃ api_name lib,
        api_name ∈ api_names
        ∧ provides listdir isdir sysroot_base api_name lib
        ∧ e = RuntimeError ("Found unexpected file in sysroot: " +:+ lib)
        ∧ endswith lib ".so" = true ∧ startswith lib "lib" = false
  | Diverged => False
  end.
Proof.
  revert system_libs.
  induction api_names as [|a api_names IH]; intros M; cbn.
  { split; [by intros ? ? ?%elem_of_nil|]. intros l v. split; [auto|].
    intros [?|(_ & _ & [|? ?] & ? & ? & _)]; done. }
  pose proof (scan_api_spec M a) as Hapi.
  destruct (scan_api listdir isdir sysroot_base M a) as [M1|e|]; cbn;
    [| |done].
  - destruct Hapi as [Hok1 Hin1]. specialize (IH M1).
    destruct (for_each _ M1 api_names) as [M'|e|]; [| |done].
    + destruct IH as [Hok Hin]. split.
      * intros a' lib [->|?]%elem_of_cons; eauto.
      * intros l v. rewrite Hin. split.
        -- intros [[?|(Hnone & -> & Hprov & Hsys)]%Hin1
                  |(Hnone1 & Hsys & before & after & -> & Hprov & Hbefore)].
           ++ auto.
           ++ right. split_and!; [done..|]. exists [], api_names.
              split_and!; [done..|]. by intros ? ?%elem_of_nil.
           ++ assert (M !! l = None) as Hnone.
              { destruct (M !! l) as [v0|] eqn:Hl; [|done].
                assert (M1 !! l = Some v0) as Hl1 by (apply Hin1; auto).
                congruence. }
              right. split_and!; [done..|].
              exists (a :: before), after. split_and!; [done..|].
              intros a' [->|?]%elem_of_cons; [|auto].
              intros Hprov'.
              assert (M1 !! l = Some a) as Hl1; [|congruence].
              apply Hin1. right. by split_and!.
        -- intros [Hl|(Hnone & Hsys & before & after & Heq & Hprov & Hbefore)].
           { left. apply Hin1. auto. }
           destruct before as [|a' before]; simplify_eq/=.
           ++ left. apply Hin1. right. by split_and!.
           ++ right. split_and!; [|done|].
              ** destruct (M1 !! l) as [v1|] eqn:Hl1; [|done].
                 apply Hin1 in Hl1 as [?|(_ & -> & Hprov' & _)];
                   [congruence|].
                 destruct (Hbefore a'); [by left|done].
              ** exists before, after. split_and!; [done..|].
                 intros z ?. apply Hbefore. by right.
    + destruct IH as (a' & lib & ? & ?). exists a', lib.
      split; [by right|done].
  - destruct Hapi as (lib & ? & ?). exists a, lib. split; [by left|done].
Qed.

(** X18: [create_system_libs_meta] raises [RuntimeError] exactly when a
    version directory of the sysroot holds a shared object whose name
    does not start with [lib]; otherwise it writes an entry for every
    shared library found other than [libc++.so], and for a library it
    names the first version directory, in the order of strings, that
    holds it.  The entries are in the order of the library names, one
    per library. *)
Theorem create_system_libs_meta_spec :
  match create_system_libs_meta listdir isdir sysroot_base with
  | Returned items =>
      StronglySorted (λ a b, String.le a.1 b.1) items
      ∧ NoDup items.*1
      ∧ (∀ lib api_name, (lib, api_name) ∈ items ↔
           system_library lib
           ∧ first_provider listdir isdir sysroot_base api_name lib)
      ∧ ∀ lib, ¬ unexpected_file listdir isdir sysroot_base lib
  | Raised e =>
      ∃ lib, unexpected_file listdir isdir sysroot_base lib
             ∧ e = RuntimeError ("Found unexpected file in sysroot: " +:+ lib)
  | Diverged => False
  end.
Proof.
  unfold create_system_libs_meta, unexpected_file.
  pose proof (scan_apis_spec (merge_sort String.le (listdir sysroot_base)) ∅)
    as Hscan.
  assert (Hsorted : StronglySorted String.le
                      (merge_sort String.le (listdir sysroot_base))).
  { apply StronglySorted_merge_sort; apply _. }
  assert (Hperm : ∀ a, a ∈ merge_sort String.le (listdir sysroot_base)
                       ↔ a ∈ listdir sysroot_base).
  { intros a. by rewrite merge_sort_Permutation. }
  revert Hscan Hsorted Hperm.
  generalize (merge_sort String.le (listdir sysroot_base)). intros L.
  destruct (for_each _ ∅ L) as [M|e|]; cbn; [| |done].
  2:{ intros (a & lib & Ha & Hprov & -> & ? & ?) _ Hperm.
      exists lib. split; [|done]. split_and!; [done..|].
      exists a. split; [by apply Hperm|done]. }
  intros [Hok Hin] Hsorted Hperm.
  assert (Hfirst : ∀ before v after l a,
    L = before ++ v :: after →
    (∀ z, z ∈ before → ¬ provides listdir isdir sysroot_base z l) →
    a ∈ L → provides listdir isdir sysroot_base a l → String.le v a).
  { intros before v after l a -> Hbefore Ha Hprov.
    apply StronglySorted_app_1_r, StronglySorted_inv in Hsorted
      as [_ Hafter].
    apply elem_of_app in Ha as [Ha|[->|Ha]%elem_of_cons].
    - by destruct (Hbefore a).
    - reflexivity.
    - rewrite Forall_forall in Hafter. by apply Hafter. }
  split_and!.
  - eapply StronglySorted_weaken;
      [|apply StronglySorted_merge_sort; apply _].
    intros a b. apply item_le_fst.
  - rewrite merge_sort_Permutation. apply NoDup_fst_map_to_list.
  - intros lib v.
    rewrite merge_sort_Permutation, elem_of_map_to_list, Hin. split.
    + intros [Hempty|(_ & Hsys & before & after & HL & Hprov & Hbefore)];
        [by rewrite lookup_empty in Hempty|].
      split; [done|]. split_and!; [|done|].
      * apply Hperm. rewrite HL, elem_of_app. right. by left.
      * intros a Ha%Hperm Hprova. by eapply Hfirst.
    + intros (Hsys & Hv & Hprov & Hleast). right.
      split_and!; [apply lookup_empty|done|].
      apply Hperm in Hv.
      destruct (first_occurrence
                  (λ a, provides listdir isdir sysroot_base a lib) L v Hv Hprov)
        as (before & v0 & after & HL & Hprov0 & Hbefore).
      assert (v0 = v) as ->; [|eauto 10].
      apply (anti_symm String.le).
      * by eapply Hfirst.
      * apply Hleast; [|done]. apply Hperm.
        rewrite HL, elem_of_app. right. by left.
  - intros lib (Hso & Hlib & a & Ha%Hperm & Hprov).
    by apply (Hok a lib).
Qed.

End SystemLibs.

(** The libraries of the two version directories: [libc.so] and
    [libm.so] since 16, [libmediandk.so] since 21; the linker script,
    the object file and the static library are left out. *)
Example create_system_libs_meta_example :
  create_system_libs_meta demo_sysroot_listdir demo_sysroot_isdir "sysroot"
  = Returned [("libc.so", "16"); ("libm.so", "16");
              ("libmediandk.so", "21")].
Proof. by_evaluation. Qed.

End MetaProofs.
